(** * go-vcr: the cassette store of package [cassette]

    A shallow embedding of [cassette/cassette.go] and the properties of the
    store that the specification states: matching, lookup, creation, and
    persistence ([Save] / [Load]).

    Conventions of the embedding.
    - A Go [string] is a sequence of bytes: Rocq's [string].
    - A Go [int] is a 64-bit signed integer, kept as a [Z] in [is_int].
    - A pointer [*T] that may be nil is an [option T] ([ptr T]); a slice
      [[]T] and a map that may be nil are [option (list T)] and
      [option (gmap ..)]: [None] is nil, [Some []] is empty and non-nil
      (encoding/json tells them apart: [null] against [[]] or [{}]).
    - What the package takes from the Go standard library and does not
      define (URL printing, [filepath.Dir], the JSON text layout and
      scanner, the errors of package os) is a parameter: class [GoLib].
    - Calls into the file system are the nodes of a program tree [Prog];
      a handler gives them a meaning on a file-system state. *)

From stdpp Require Import base option list strings gmap fin_maps sorting.
From Stdlib Require Import ZArith NArith Ascii.

Set Default Proof Using "Type".
Open Scope Z_scope.

Abbreviation ptr := option.

(** ** JSON documents (package encoding/json, as far as the store uses it) *)

(** A number literal: an integer literal, or a literal with a fraction or
    an exponent part, which no [int] field accepts. *)
Inductive number :=
| Integer (z : Z)
| Fractional (lit : string).

(** The value a syntactically valid JSON text denotes. Strings are held
    decoded (escapes resolved). Object members keep the order and the
    repetitions of the text. *)
#[warnings="-register-all"]
Inductive JSON :=
| JNull
| JBool (b : bool)
| JNumber (n : number)
| JString (s : string)
| JArray (items : list JSON)
| JObject (members : list (string * JSON)).

(** The kinds of JSON value and of Go target named by a type error. *)
Inductive json_kind := KBool | KNumber | KString | KArray | KObject.
Inductive go_type := TInt | TString | TStringSlice | TMap | TRequest
                   | TResponse | TInteraction | TInteractions | TCassette.

Inductive json_error :=
| SyntaxError
| UnmarshalTypeError (Value : json_kind) (Type_ : go_type).

(** ** The standard library the package is compiled against *)

Class GoLib := {
  (** net/url: [url.URL] and its [String] method *)
  url_URL : Type;
  URL_String : url_URL → string;
  (** os: the errors its calls return, [os.IsNotExist], open files *)
  os_error : Type;
  os_IsNotExist : os_error → bool;
  os_File : Type;
  (** path/filepath *)
  filepath_Dir : string → string;
  (** [[]byte] holding a document; the text [json.MarshalIndent] lays out
      for a value and the value the scanner of [json.Unmarshal] reads *)
  bytes : Type;
  json_text : JSON → bytes;
  json_scan : bytes → option JSON;
}.

(** ** UTF-8 (package unicode/utf8), for the string coercion of the encoder *)

Module utf8.

Definition cont (b : N) : bool := ((128 <=? b) && (b <=? 191))%N.

(** Width of the encoding that starts [bs], as [utf8.DecodeRuneInString]
    finds it; [None] is its [(RuneError, 1)]: no valid encoding here. *)
Definition width (bs : list N) : option nat :=
  match bs with
  | [] => None
  | b0 :: t =>
    if (b0 <? 128)%N then Some 1%nat
    else if (b0 <? 194)%N then None
    else if (b0 <? 224)%N then
      match t with
      | b1 :: _ => if cont b1 then Some 2%nat else None
      | _ => None
      end
    else if (b0 <? 240)%N then
      match t with
      | b1 :: b2 :: _ =>
        let lo := if (b0 =? 224)%N then 160%N else 128%N in
        let hi := if (b0 =? 237)%N then 159%N else 191%N in
        if (lo <=? b1)%N && (b1 <=? hi)%N && cont b2 then Some 3%nat else None
      | _ => None
      end
    else if (b0 <? 245)%N then
      match t with
      | b1 :: b2 :: b3 :: _ =>
        let lo := if (b0 =? 240)%N then 144%N else 128%N in
        let hi := if (b0 =? 244)%N then 143%N else 191%N in
        if (lo <=? b1)%N && (b1 <=? hi)%N && cont b2 && cont b3
        then Some 4%nat else None
      | _ => None
      end
    else None
  end.

(** Every byte that starts no valid encoding becomes U+FFFD (EF BF BD);
    [copy] counts the remaining bytes of the encoding being copied. *)
Fixpoint coerce (copy : nat) (bs : list N) : list N :=
  match bs with
  | [] => []
  | b :: t =>
    match copy with
    | S k => b :: coerce k t
    | O =>
      match width bs with
      | Some w => b :: coerce (pred w) t
      | None => 239%N :: 191%N :: 189%N :: coerce 0 t
      end
    end
  end.

End utf8.

Definition string_bytes (s : string) : list N :=
  N_of_ascii <$> String.list_ascii_of_string s.
Definition bytes_string (bs : list N) : string :=
  String.string_of_list_ascii (ascii_of_N <$> bs).

(** What the encoder writes for a Go string, read back: "String values
    encode as JSON strings coerced to valid UTF-8, replacing invalid bytes
    with the Unicode replacement rune" (encoding/json, [Marshal]). *)
Definition toValidUTF8 (s : string) : string :=
  bytes_string (utf8.coerce 0 (string_bytes s)).

Definition valid_utf8 (s : string) : Prop := toValidUTF8 s = s.

(** The document a text denotes once written by the encoder: every string
    and every member name coerced. *)
Fixpoint json_coerce (j : JSON) : JSON :=
  match j with
  | JString s => JString (toValidUTF8 s)
  | JArray items => JArray (json_coerce <$> items)
  | JObject members =>
    JObject ((λ m, (toValidUTF8 m.1, json_coerce m.2)) <$> members)
  | _ => j
  end.

(** ** The data model of package cassette *)

(** [int]: 64 bits. *)
Definition is_int (z : Z) : Prop := -2 ^ 63 ≤ z < 2 ^ 63.

(** [http.Header] and [url.Values] are both [map[string][]string]. *)
Abbreviation Header := (option (gmap string (option (list string)))).
Abbreviation Values := (option (gmap string (option (list string)))).

(** Cassette format versions *)
Definition cassetteFormatV1 : Z := 1.

(** [Request] represents a client request as recorded in the cassette
    file. *)
Record Request := {
  Request_Body : string;       (* `json:"body"` *)
  Request_Form : Values;       (* `json:"form"` *)
  Request_Headers : Header;    (* `json:"headers"` *)
  Request_URL : string;        (* `json:"url"` *)
  Request_Method : string;     (* `json:"method"` *)
}.

(** [Response] represents a server response as recorded in the cassette
    file. *)
Record Response := {
  Response_Body : string;      (* `json:"body"` *)
  Response_Headers : Header;   (* `json:"headers"` *)
  Response_Status : string;    (* `json:"status"` *)
  Response_Code : Z;           (* `json:"code"` *)
}.

(** [Interaction] embeds a [Request] and a [Response]. *)
Record Interaction := {
  Interaction_Request : Request;      (* `json:"request"` *)
  Interaction_Response : Response;    (* `json:"response"` *)
}.

Section cassette.
Context {go : GoLib}.

(** The errors the package returns: its own [ErrInteractionNotFound],
    and those of os and encoding/json that it passes on. *)
Inductive error :=
| ErrInteractionNotFound
| OsError (e : os_error)
| JsonError (e : json_error).

(** [*http.Request], the fields a matcher can look at. *)
Record http_Request := {
  Method : string;
  URL : url_URL;
  Header_ : Header;
  Form : Values;
  Body : string;
}.

(** [Matcher] returns true when the actual request matches a single
    HTTP interaction's request according to the function's own
    criteria. *)
Definition Matcher : Type := http_Request → Request → bool.

(** [DefaultMatcher] is used when a custom matcher is not defined and
    compares only the method and URL. *)
Definition DefaultMatcher : Matcher := λ r i,
  bool_decide (Method r = Request_Method i)
  && bool_decide (URL_String (URL r) = Request_URL i).

(** The embedded [sync.RWMutex] has no field of its own here: a lock
    taken and released by one caller with no other caller running
    leaves it as it was. The interleaving of several callers is the
    subject of module [Concurrent] below. *)
Record Cassette := {
  Cassette_Name : string;                            (* `json:"-"` *)
  Cassette_File : string;                            (* `json:"-"` *)
  Cassette_Version : Z;                              (* `json:"version"` *)
  Cassette_Interactions : option (list (ptr Interaction));
                                                     (* `json:"interactions"` *)
  Cassette_Matcher : Matcher;                        (* `json:"-"` *)
}.

(** [len] and [range] see a nil slice as an empty one. *)
Definition elems {A} (s : option (list A)) : list A := default [] s.

(** [New] creates a new empty cassette. *)
Definition New (name : string) : Cassette :=
  {| Cassette_Name := name;
     Cassette_File := name +:+ ".json";
     Cassette_Version := cassetteFormatV1;
     Cassette_Interactions := Some [];
     Cassette_Matcher := DefaultMatcher |}.

(** [AddInteraction] appends a new interaction to the cassette. *)
Definition AddInteraction (c : Cassette) (i : ptr Interaction) : Cassette :=
  {| Cassette_Name := Cassette_Name c;
     Cassette_File := Cassette_File c;
     Cassette_Version := Cassette_Version c;
     Cassette_Interactions := Some (elems (Cassette_Interactions c) ++ [i]);
     Cassette_Matcher := Cassette_Matcher c |}.

(** What a call comes to: it returns, or it panics. *)
Inductive outcome (A : Type) :=
| Return (a : A)
| Panic.
Global Arguments Return {A} a.
Global Arguments Panic {A}.

(** The loop of [GetInteraction]: [i.Request] of a nil [*Interaction]
    is a nil dereference. *)
Fixpoint scan (m : Matcher) (r : http_Request) (l : list (ptr Interaction))
  : outcome (ptr Interaction * option error) :=
  match l with
  | [] => Return (None, Some ErrInteractionNotFound)
  | None :: _ => Panic
  | Some i :: l' =>
    if m r (Interaction_Request i) then Return (Some i, None)
    else scan m r l'
  end.

(** [GetInteraction] retrieves a recorded request/response interaction.
    The method has a pointer receiver: the cassette after the call is
    the second component. No statement of the body assigns to it. *)
Definition GetInteraction (c : Cassette) (r : http_Request)
  : outcome (ptr Interaction * option error) * Cassette :=
  (scan (Cassette_Matcher c) r (elems (Cassette_Interactions c)), c).

End cassette.

(** ** encoding/json on the types of the package

    The encoder and the decoder are driven by the struct tags above. Both
    are written over [JSON] values; the text between them is
    [json_text] and [json_scan] of [GoLib]. *)

Module json.

(** *** Encoding ([Marshal]) *)

(** Map keys are written in increasing byte order. *)
Definition key_le (a b : string * option (list string)) : Prop :=
  String.leb a.1 b.1 = true.

#[global] Instance key_le_dec : RelDecision key_le :=
  λ a b, decide (String.leb a.1 b.1 = true).

Definition enc_strings (s : option (list string)) : JSON :=
  match s with
  | None => JNull
  | Some l => JArray (JString <$> l)
  end.

Definition enc_map (m : Header) : JSON :=
  match m with
  | None => JNull
  | Some m =>
    JObject ((λ kv, (kv.1, enc_strings kv.2)) <$> merge_sort key_le (map_to_list m))
  end.

Definition enc_Request (r : Request) : JSON :=
  JObject [("body", JString (Request_Body r));
           ("form", enc_map (Request_Form r));
           ("headers", enc_map (Request_Headers r));
           ("url", JString (Request_URL r));
           ("method", JString (Request_Method r))].

Definition enc_Response (r : Response) : JSON :=
  JObject [("body", JString (Response_Body r));
           ("headers", enc_map (Response_Headers r));
           ("status", JString (Response_Status r));
           ("code", JNumber (Integer (Response_Code r)))].

Definition enc_Interaction (i : ptr Interaction) : JSON :=
  match i with
  | None => JNull
  | Some i =>
    JObject [("request", enc_Request (Interaction_Request i));
             ("response", enc_Response (Interaction_Response i))]
  end.

Definition enc_Interactions (s : option (list (ptr Interaction))) : JSON :=
  match s with
  | None => JNull
  | Some l => JArray (enc_Interaction <$> l)
  end.

(** *** Decoding ([Unmarshal])

    The rules followed, from the documentation and the code of
    encoding/json:
    - a member name selects the field whose name it equals under Unicode
      simple case folding; a name that selects no field is skipped;
    - [null] leaves an int, a string or a struct as it is and sets a
      pointer, a slice or a map to nil;
    - a value of the wrong kind leaves the target as it is; the error is
      kept, decoding goes on, and the first error kept is returned;
    - an object decoded into a map adds its members to the map (a nil map
      is allocated first), each value decoded into a fresh element;
    - an array decoded into a slice decodes element [i] into what the
      backing array holds at [i], or into a zero value past its end, and
      an empty array gives a fresh empty slice;
    - repeated members are decoded in turn into the same field. *)

Definition lower (b : N) : N :=
  (if (65 <=? b) && (b <=? 90) then b + 32 else b)%N.

(** Folding of a member name towards the ASCII lower-case field names:
    besides the letters A-Z, only U+017F (C5 BF) folds to an ASCII
    letter, [s], and U+212A (E2 84 AA), to [k]. *)
Fixpoint fold_bytes (bs : list N) : list N :=
  match bs with
  | [] => []
  | b :: t =>
    match t with
    | [] => [lower b]
    | b1 :: t1 =>
      if ((b =? 197) && (b1 =? 191))%N then 115%N :: fold_bytes t1
      else
        match t1 with
        | b2 :: t2 =>
          if ((b =? 226) && (b1 =? 132) && (b2 =? 170))%N
          then 107%N :: fold_bytes t2
          else lower b :: fold_bytes t
        | [] => lower b :: fold_bytes t
        end
    end
  end.

Definition foldName (k : string) : string :=
  bytes_string (fold_bytes (string_bytes k)).

Definition type_error (j : JSON) (t : go_type) : list json_error :=
  match j with
  | JNull => []
  | JBool _ => [UnmarshalTypeError KBool t]
  | JNumber _ => [UnmarshalTypeError KNumber t]
  | JString _ => [UnmarshalTypeError KString t]
  | JArray _ => [UnmarshalTypeError KArray t]
  | JObject _ => [UnmarshalTypeError KObject t]
  end.

Definition dec_string (j : JSON) (cur : string) : string * list json_error :=
  match j with
  | JString s => (s, [])
  | _ => (cur, type_error j TString)
  end.

Definition dec_int (j : JSON) (cur : Z) : Z * list json_error :=
  match j with
  | JNumber (Integer z) =>
    if bool_decide (is_int z) then (z, []) else (cur, type_error j TInt)
  | _ => (cur, type_error j TInt)
  end.

(** The elements of an array, decoded in turn into [backing]. Returns the
    decoded elements and what remains of [backing] behind them. *)
Fixpoint dec_elems {A} (dec : JSON → A → A * list json_error) (zero : A)
    (js : list JSON) (backing : list A) : list A * list A * list json_error :=
  match js with
  | [] => ([], backing, [])
  | j :: js' =>
    let x0 := default zero (head backing) in
    let '(x, e1) := dec j x0 in
    let '(xs, spare, e2) := dec_elems dec zero js' (tail backing) in
    (x :: xs, spare, e1 ++ e2)
  end.

(** A slice being decoded: its value, and the elements of its backing
    array behind its length. *)
Definition dec_slice {A} (dec : JSON → A → A * list json_error) (zero : A)
    (t : go_type) (j : JSON) (cur : option (list A)) (spare : list A)
  : option (list A) * list A * list json_error :=
  match j with
  | JNull => (None, [], [])
  | JArray [] => (Some [], [], [])
  | JArray js =>
    let '(xs, spare', e) := dec_elems dec zero js (elems cur ++ spare) in
    (Some xs, spare', e)
  | _ => (cur, spare, type_error j t)
  end.

Definition dec_strings (j : JSON) : option (list string) * list json_error :=
  let '(s, _, e) := dec_slice dec_string "" TStringSlice j None [] in (s, e).

Fixpoint dec_map_members (ms : list (string * JSON))
    (m : gmap string (option (list string)))
  : gmap string (option (list string)) * list json_error :=
  match ms with
  | [] => (m, [])
  | (k, v) :: ms' =>
    let '(s, e1) := dec_strings v in
    let '(m', e2) := dec_map_members ms' (<[k := s]> m) in
    (m', e1 ++ e2)
  end.

Definition dec_map (j : JSON) (cur : Header) : Header * list json_error :=
  match j with
  | JNull => (None, [])
  | JObject ms =>
    let '(m, e) := dec_map_members ms (default ∅ cur) in (Some m, e)
  | _ => (cur, type_error j TMap)
  end.

(** The members of an object, decoded in turn into a struct. *)
Fixpoint dec_members {A} (field : string → JSON → A → A * list json_error)
    (ms : list (string * JSON)) (cur : A) : A * list json_error :=
  match ms with
  | [] => (cur, [])
  | (k, v) :: ms' =>
    let '(x, e1) := field (foldName k) v cur in
    let '(x', e2) := dec_members field ms' x in
    (x', e1 ++ e2)
  end.

Definition dec_struct {A} (field : string → JSON → A → A * list json_error)
    (t : go_type) (j : JSON) (cur : A) : A * list json_error :=
  match j with
  | JObject ms => dec_members field ms cur
  | _ => (cur, type_error j t)
  end.

Definition Request_field (n : string) (v : JSON) (r : Request)
  : Request * list json_error :=
  if bool_decide (n = "body") then
    let '(x, e) := dec_string v (Request_Body r) in
    (Build_Request x (Request_Form r) (Request_Headers r) (Request_URL r)
       (Request_Method r), e)
  else if bool_decide (n = "form") then
    let '(x, e) := dec_map v (Request_Form r) in
    (Build_Request (Request_Body r) x (Request_Headers r) (Request_URL r)
       (Request_Method r), e)
  else if bool_decide (n = "headers") then
    let '(x, e) := dec_map v (Request_Headers r) in
    (Build_Request (Request_Body r) (Request_Form r) x (Request_URL r)
       (Request_Method r), e)
  else if bool_decide (n = "url") then
    let '(x, e) := dec_string v (Request_URL r) in
    (Build_Request (Request_Body r) (Request_Form r) (Request_Headers r) x
       (Request_Method r), e)
  else if bool_decide (n = "method") then
    let '(x, e) := dec_string v (Request_Method r) in
    (Build_Request (Request_Body r) (Request_Form r) (Request_Headers r)
       (Request_URL r) x, e)
  else (r, []).

Definition Response_field (n : string) (v : JSON) (r : Response)
  : Response * list json_error :=
  if bool_decide (n = "body") then
    let '(x, e) := dec_string v (Response_Body r) in
    (Build_Response x (Response_Headers r) (Response_Status r)
       (Response_Code r), e)
  else if bool_decide (n = "headers") then
    let '(x, e) := dec_map v (Response_Headers r) in
    (Build_Response (Response_Body r) x (Response_Status r)
       (Response_Code r), e)
  else if bool_decide (n = "status") then
    let '(x, e) := dec_string v (Response_Status r) in
    (Build_Response (Response_Body r) (Response_Headers r) x
       (Response_Code r), e)
  else if bool_decide (n = "code") then
    let '(x, e) := dec_int v (Response_Code r) in
    (Build_Response (Response_Body r) (Response_Headers r)
       (Response_Status r) x, e)
  else (r, []).

Definition Interaction_field (n : string) (v : JSON) (i : Interaction)
  : Interaction * list json_error :=
  if bool_decide (n = "request") then
    let '(x, e) := dec_struct Request_field TRequest v (Interaction_Request i) in
    (Build_Interaction x (Interaction_Response i), e)
  else if bool_decide (n = "response") then
    let '(x, e) := dec_struct Response_field TResponse v (Interaction_Response i) in
    (Build_Interaction (Interaction_Request i) x, e)
  else (i, []).

(** The zero values of the structs. *)
Definition zero_Interaction : Interaction :=
  {| Interaction_Request := Build_Request "" None None "" "";
     Interaction_Response := Build_Response "" None "" 0 |}.

(** An element of [[]*Interaction]: [null] sets the pointer to nil; any
    other value is decoded into the struct pointed to, allocated first if
    the pointer is nil. *)
Definition dec_Interaction (j : JSON) (cur : ptr Interaction)
  : ptr Interaction * list json_error :=
  match j with
  | JNull => (None, [])
  | _ =>
    let '(i, e) := dec_struct Interaction_field TInteraction j
                     (default zero_Interaction cur) in
    (Some i, e)
  end.

(** The two fields of [Cassette] that carry a name, while a document is
    decoded: [Version], and [Interactions] with the rest of its backing
    array. *)
Record document := {
  doc_Version : Z;
  doc_Interactions : option (list (ptr Interaction));
  doc_spare : list (ptr Interaction);
}.

Definition Cassette_field (n : string) (v : JSON) (d : document)
  : document * list json_error :=
  if bool_decide (n = "version") then
    let '(x, e) := dec_int v (doc_Version d) in
    (Build_document x (doc_Interactions d) (doc_spare d), e)
  else if bool_decide (n = "interactions") then
    let '(x, sp, e) := dec_slice dec_Interaction None TInteractions v
                         (doc_Interactions d) (doc_spare d) in
    (Build_document (doc_Version d) x sp, e)
  else (d, []).

End json.

(** ** Calls into the file system *)

Section persistence.
Context {go : GoLib}.

(** The calls [Load] and [Save] make, each with the type of its result.
    [os.Stat] also returns a [FileInfo], which [Save] drops. *)
Inductive call : Type → Type :=
| ioutil_ReadFile (filename : string) : call (bytes + os_error)
| os_Stat (name : string) : call (option os_error)
| os_MkdirAll (path : string) (perm : Z) : call (option os_error)
| os_Create (name : string) : call (os_File + os_error)
| File_Write (f : os_File) (b : bytes) : call (option os_error)
| File_Close (f : os_File) : call (option os_error).

(** A function body that makes such calls: it returns, or makes a call and
    goes on with its result. *)
Inductive Prog (A : Type) : Type :=
| Ret (a : A)
| Call {X : Type} (c : call X) (k : X → Prog A).
Global Arguments Ret {A} a.
Global Arguments Call {A X} c k.

(** A file system: what each call returns in a state, and the state it
    leaves. *)
Definition handler (fs : Type) : Type := ∀ X, call X → fs → X * fs.

Fixpoint run {fs A} (h : handler fs) (p : Prog A) (s : fs) : A * fs :=
  match p with
  | Ret a => (a, s)
  | Call c k => let '(x, s') := h _ c s in run h (k x) s'
  end.

(** The calls a body makes on a file system, in order. *)
Inductive event :=
| Event (X : Type) (c : call X).
Global Arguments Event {X} c.

Fixpoint trace {fs A} (h : handler fs) (p : Prog A) (s : fs) : list event :=
  match p with
  | Ret _ => []
  | Call c k => let '(x, s') := h _ c s in Event c :: trace h (k x) s'
  end.

(** ** Persistence *)

(** The document of a cassette: the fields whose tag is a name. [Name],
    [File] and [Matcher] are tagged ["-"], and the embedded mutex has no
    exported field. *)
Definition enc_Cassette (c : Cassette) : JSON :=
  JObject [("version", JNumber (Integer (Cassette_Version c)));
           ("interactions", json.enc_Interactions (Cassette_Interactions c))].

(** [json.MarshalIndent(c, "", "  ")]. The encoder fails on no value of
    these types: the error is always nil. *)
Definition MarshalIndent (c : Cassette) : bytes * option error :=
  (json_text (enc_Cassette c), None).

(** [json.Unmarshal(data, &c)] with [c] a non-nil [*Cassette]: the text is
    scanned first; [null] sets the pointer [c] itself to nil; any other
    value is decoded into the cassette [c] points to. [Load] passes the
    cassette of [New], whose slice has no capacity. *)
Definition Unmarshal (data : bytes) (c : Cassette) : ptr Cassette * option error :=
  match json_scan data with
  | None => (Some c, Some (JsonError SyntaxError))
  | Some JNull => (None, None)
  | Some j =>
    let '(d, e) :=
      json.dec_struct json.Cassette_field TCassette j
        (json.Build_document (Cassette_Version c) (Cassette_Interactions c) []) in
    (Some {| Cassette_Name := Cassette_Name c;
             Cassette_File := Cassette_File c;
             Cassette_Version := json.doc_Version d;
             Cassette_Interactions := json.doc_Interactions d;
             Cassette_Matcher := Cassette_Matcher c |},
     JsonError <$> head e)
  end.

(** [Load] reads a cassette file from disk. *)
Definition Load (name : string) : Prog (ptr Cassette * option error) :=
  let c := New name in
  Call (ioutil_ReadFile (Cassette_File c)) (λ r,
    match r with
    | inr err => Ret (None, Some (OsError err))
    | inl data => Ret (Unmarshal data c)
    end).

(** [os.IsNotExist(err)]; false of a nil error. *)
Definition IsNotExist (err : option os_error) : bool :=
  match err with
  | Some e => os_IsNotExist e
  | None => false
  end.

(** The end of [Save]: marshal, create the file, write, and close it on
    the way out ([defer f.Close()], whose result is dropped). *)
Definition write_file (c : Cassette) : Prog (option error) :=
  let '(data, err) := MarshalIndent c in
  match err with
  | Some e => Ret (Some e)
  | None =>
    Call (os_Create (Cassette_File c)) (λ r,
      match r with
      | inr err => Ret (Some (OsError err))
      | inl f =>
        Call (File_Write f data) (λ err,
          Call (File_Close f) (λ _, Ret (OsError <$> err)))
      end)
  end.

(** [Save] writes the cassette data on disk for future re-use. *)
Definition Save (c : Cassette) : Prog (option error) :=
  (* Save cassette file only if there were any interactions made *)
  if bool_decide (length (elems (Cassette_Interactions c)) = 0%nat) then Ret None
  else
    (* Create directory for cassette if missing *)
    let cassetteDir := filepath_Dir (Cassette_File c) in
    Call (os_Stat cassetteDir) (λ err,
      if IsNotExist err then
        Call (os_MkdirAll cassetteDir 493) (λ err,
          match err with
          | Some e => Ret (Some (OsError e))
          | None => write_file c
          end)
      else write_file c).

End persistence.

(** ** An instance of the library, in memory

    URLs are their own text, a file holds nothing, a document or
    something else, and a file system is a map from paths to contents
    with a set of directories. The instance is what closed examples are
    evaluated on. *)

Module mem.

Inductive errno := ENOENT | EISDIR | ENOTDIR | EBADF.

Inductive text :=
| Empty
| Doc (j : JSON)
| Garbage.

Definition scan (t : text) : option JSON :=
  match t with
  | Doc j => Some j
  | _ => None
  end.

(** Writing [b] at the end of [a]. *)
Definition append (a b : text) : text :=
  match a, b with
  | Empty, _ => b
  | _, Empty => a
  | _, _ => Garbage
  end.

(** The part of a path before its last separator. *)
Fixpoint before_last_separator (s : string) : option string :=
  match s with
  | EmptyString => None
  | String a t =>
    match before_last_separator t with
    | Some d => Some (String a d)
    | None => if Ascii.eqb a "/" then Some EmptyString else None
    end
  end.

Definition Dir (s : string) : string :=
  match before_last_separator s with
  | Some EmptyString => "/"
  | Some d => d
  | None => "."
  end.

Definition lib : GoLib :=
  {| url_URL := string;
     URL_String := id;
     os_error := errno;
     os_IsNotExist := λ e, match e with ENOENT => true | _ => false end;
     os_File := string;
     filepath_Dir := Dir;
     bytes := text;
     json_text := λ j, Doc (json_coerce j);
     json_scan := scan |}.

Record fs := {
  files : gmap string text;
  dirs : gset string;
}.

Definition exec : @handler lib fs := λ X c,
  match c in call X return fs → X * fs with
  | ioutil_ReadFile p => λ s,
    (match files s !! p with
     | Some t => inl t
     | None => inr (if bool_decide (p ∈ dirs s) then EISDIR else ENOENT)
     end, s)
  | os_Stat p => λ s,
    (if bool_decide (p ∈ dirs s) || bool_decide (is_Some (files s !! p))
     then None else Some ENOENT, s)
  | os_MkdirAll p _ => λ s,
    if bool_decide (is_Some (files s !! p)) then (Some ENOTDIR, s)
    else (None, {| files := files s; dirs := {[p]} ∪ dirs s |})
  | os_Create p => λ s,
    if bool_decide (p ∈ dirs s) then (inr EISDIR, s)
    else if bool_decide (Dir p ∈ dirs s)
    then (inl p, {| files := <[p := Empty]> (files s); dirs := dirs s |})
    else (inr ENOENT, s)
  | File_Write f b => λ s,
    match files s !! (f : string) with
    | Some t =>
      (None, {| files := <[(f : string) := append t (b : text)]> (files s);
                dirs := dirs s |})
    | None => (Some EBADF, s)
    end
  | File_Close f => λ s, (None, s)
  end.

End mem.

(** ** Several goroutines in [GetInteraction]

    Each goroutine runs the body of [GetInteraction] for the same request,
    one statement at a time, in any order a scheduler picks. [RLock] is
    the shared side of the [sync.RWMutex]: it waits only for a writer. *)

Module Concurrent.
Section lookups.
Context {go : GoLib}.

Record RWMutex := {
  readers : nat;
  writer : bool;
}.

(** Where a goroutine stands in [GetInteraction]. *)
Inductive pc :=
| AtRLock                                    (* c.RLock() *)
| InLoop (rest : list (ptr Interaction))     (* for _, i := range c.Interactions *)
| AtRUnlock (res : outcome (ptr Interaction * option error))
                                             (* the deferred c.RUnlock() *)
| Done (res : outcome (ptr Interaction * option error)).

(** The cassette the goroutines share, with its mutex. *)
Record shared := {
  mu : RWMutex;
  cassette : Cassette;
}.

(** One statement of a goroutine; [None] when it cannot move: it waits for
    the mutex or has returned. *)
Definition step (r : http_Request) (p : pc) (s : shared) : option (pc * shared) :=
  match p with
  | AtRLock =>
    if writer (mu s) then None
    else Some (InLoop (elems (Cassette_Interactions (cassette s))),
               {| mu := {| readers := S (readers (mu s)); writer := false |};
                  cassette := cassette s |})
  | InLoop [] => Some (AtRUnlock (Return (None, Some ErrInteractionNotFound)), s)
  | InLoop (None :: _) => Some (AtRUnlock Panic, s)
  | InLoop (Some i :: rest) =>
    if Cassette_Matcher (cassette s) r (Interaction_Request i)
    then Some (AtRUnlock (Return (Some i, None)), s)
    else Some (InLoop rest, s)
  | AtRUnlock res =>
    Some (Done res,
          {| mu := {| readers := pred (readers (mu s)); writer := writer (mu s) |};
             cassette := cassette s |})
  | Done _ => None
  end.

(** The goroutines and what they share. *)
Definition system : Type := list pc * shared.

(** The scheduler lets goroutine [t] make one step, if it can. *)
Definition sched_step (r : http_Request) (t : nat) (σ : system) : system :=
  match σ.1 !! t with
  | Some p =>
    match step r p σ.2 with
    | Some (p', s') => (<[t := p']> σ.1, s')
    | None => σ
    end
  | None => σ
  end.

Definition exec (r : http_Request) (schedule : list nat) (σ : system) : system :=
  foldl (λ σ t, sched_step r t σ) σ schedule.

(** [n] goroutines about to call [GetInteraction] on [c], nobody holding
    the mutex. *)
Definition start (n : nat) (c : Cassette) : system :=
  (replicate n AtRLock,
   {| mu := {| readers := 0; writer := false |}; cassette := c |}).

(** A goroutine whose lookup, where it stands, can only come to what one
    lookup alone on [c] comes to. *)
Definition agrees (c : Cassette) (r : http_Request) (p : pc) : Prop :=
  let alone := scan (Cassette_Matcher c) r (elems (Cassette_Interactions c)) in
  match p with
  | AtRLock => True
  | InLoop rest => scan (Cassette_Matcher c) r rest = alone
  | AtRUnlock res => res = alone
  | Done res => res = alone
  end.

(** A goroutine that, if it has returned, has returned interaction [i]. *)
Definition returned_only (i : Interaction) (p : pc) : Prop :=
  match p with
  | Done res => res = Return (Some i, None)
  | _ => True
  end.

End lookups.
End Concurrent.

(** ** What the statements below speak of *)

(** An entry of the sequence that is an interaction whose recorded request
    the matcher does not accept for [r]. *)
Definition rejects {go : GoLib} (m : Matcher) (r : http_Request)
    (p : ptr Interaction) : bool :=
  match p with
  | Some i => negb (m r (Interaction_Request i))
  | None => false
  end.

(** Values the encoder writes as they are: strings that are valid UTF-8.
    ([Go] holds every [int] within [is_int].) *)
Definition utf8b (s : string) : bool := bool_decide (valid_utf8 s).

Definition plain_strings (s : option (list string)) : bool :=
  forallb utf8b (elems s).

Definition plain_map (m : Header) : bool :=
  forallb (λ kv, utf8b kv.1 && plain_strings kv.2) (map_to_list (default ∅ m)).

Definition plain_Request (r : Request) : bool :=
  utf8b (Request_Body r) && plain_map (Request_Form r)
  && plain_map (Request_Headers r) && utf8b (Request_URL r)
  && utf8b (Request_Method r).

Definition plain_Response (r : Response) : bool :=
  utf8b (Response_Body r) && plain_map (Response_Headers r)
  && utf8b (Response_Status r) && bool_decide (is_int (Response_Code r)).

Definition plain_Interaction (p : ptr Interaction) : bool :=
  match p with
  | None => true
  | Some i => plain_Request (Interaction_Request i)
              && plain_Response (Interaction_Response i)
  end.

Definition plain_Cassette {go : GoLib} (c : Cassette) : bool :=
  bool_decide (is_int (Cassette_Version c))
  && forallb plain_Interaction (elems (Cassette_Interactions c)).

(** The scanner reads back what the encoder wrote: the value, with its
    strings coerced to valid UTF-8. *)
Definition scan_text {go : GoLib} : Prop :=
  ∀ j, json_scan (json_text j) = Some (json_coerce j).

(** A file created, written once and closed is read back as written. *)
Definition read_after_write {go : GoLib} {fs} (h : handler fs) : Prop :=
  ∀ name f data s s1 s2 s3 e,
    h _ (os_Create name) s = (inl f, s1) →
    h _ (File_Write f data) s1 = (None, s2) →
    h _ (File_Close f) s2 = (e, s3) →
    h _ (ioutil_ReadFile name) s3 = (inl data, s3).

(** The document [Save] writes for version [v] and interactions [l]. *)
Definition saved_document (v : Z) (l : list (ptr Interaction)) : JSON :=
  JObject [("version", JNumber (Integer v));
           ("interactions", JArray (json.enc_Interaction <$> l))].

(** ** Closed examples, on the instance in memory *)

Module example.
Section data.
Local Existing Instance mem.lib.

(** The request and the exchange of [TestSimple]. *)
Definition golang_request : http_Request :=
  {| Method := "GET"; URL := "http://golang.org/";
     Header_ := None; Form := None; Body := "" |}.

Definition golang_org : Interaction :=
  {| Interaction_Request :=
       Build_Request "" None (Some {["Accept" := Some ["*/*"]]})
         "http://golang.org/" "GET";
     Interaction_Response :=
       Build_Response "<title>The Go Programming Language</title>"
         (Some {["Content-Type" := Some ["text/html"]; "Vary" := None]})
         "200 OK" 200 |}.

Definition golang_cassette : Cassette :=
  AddInteraction (New "fixtures/golang-org") (Some golang_org).


(** A file system with the working directory and nothing else. *)
Definition fresh : mem.fs := {| mem.files := ∅; mem.dirs := {["."]} |}.

(** A fixture whose document carries version 2. *)
Definition version_2 : mem.fs :=
  {| mem.files := {["v2.json" := mem.Doc (saved_document 2 [Some golang_org])]};
     mem.dirs := {["."]} |}.

(** A fixture that is no JSON text. *)
Definition garbled : mem.fs :=
  {| mem.files := {["broken.json" := mem.Garbage]}; mem.dirs := {["."]} |}.

(** A fixture whose document has a version and, for its interactions, a
    string. *)
Definition mistyped : mem.fs :=
  {| mem.files :=
       {["odd.json" :=
           mem.Doc (JObject [("version", JNumber (Integer 7));
                             ("interactions", JString "none")])]};
     mem.dirs := {["."]} |}.

(** A response whose body is the single byte FF. *)
Definition binary_body : string := String (ascii_of_N 255) EmptyString.

Definition binary : Interaction :=
  {| Interaction_Request := Build_Request "" None None "http://golang.org/logo" "GET";
     Interaction_Response := Build_Response binary_body None "200 OK" 200 |}.

Definition binary_cassette : Cassette :=
  AddInteraction (New "logo") (Some binary).

(** What [Load "v2"] returns on [version_2]. *)
Definition loaded_v2 : Cassette :=
  {| Cassette_Name := "v2";
     Cassette_File := "v2.json";
     Cassette_Version := 2;
     Cassette_Interactions := Some [Some golang_org];
     Cassette_Matcher := DefaultMatcher |}.

End data.
End example.

(** ** Calls with their results *)

Section logs.
Context {go : GoLib}.

(** A call a body has made and what the file system returned for it. *)
Inductive entry :=
| Entry (X : Type) (c : call X) (x : X).
Global Arguments Entry {X} c x.

Fixpoint log {fs A} (h : handler fs) (p : Prog A) (s : fs) : list entry :=
  match p with
  | Ret _ => []
  | Call c k => let '(x, s') := h _ c s in Entry c x :: log h (k x) s'
  end.

(** The file an entry opens: [os.Create] that returned one. *)
Definition opened (e : entry) : option os_File :=
  match e with
  | Entry c x =>
    match c in call X return X → option os_File with
    | os_Create _ => λ x, match x with inl f => Some f | inr _ => None end
    | _ => λ _, None
    end x
  end.

(** The file an entry closes. *)
Definition closed (e : entry) : option os_File :=
  match e with
  | Entry c _ =>
    match c with
    | File_Close f => Some f
    | _ => None
    end
  end.

(** The calls [Save] of cassette [c] may make: [os.Stat] and
    [os.MkdirAll] (mode 0755) of the directory of its file, [os.Create] of
    its file, [Write] of its document, [Close]; never a read. *)
Definition Save_call (c : Cassette) (e : event) : Prop :=
  match e with
  | Event call =>
    match call with
    | ioutil_ReadFile _ => False
    | os_Stat name => name = filepath_Dir (Cassette_File c)
    | os_MkdirAll path perm =>
      path = filepath_Dir (Cassette_File c) ∧ perm = 493
    | os_Create name => name = Cassette_File c
    | File_Write _ b => b = json_text (enc_Cassette c)
    | File_Close _ => True
    end
  end.

(** The path an event creates a file at. *)
Definition created (e : event) : option string :=
  match e with
  | Event call =>
    match call with
    | os_Create name => Some name
    | _ => None
    end
  end.

(** An entry that is a write of the document of [c] that succeeded. *)
Definition wrote (c : Cassette) (e : entry) : Prop :=
  match e with
  | Entry call x =>
    match call in call X return X → Prop with
    | File_Write _ b => λ x, b = json_text (enc_Cassette c) ∧ x = None
    | _ => λ _, False
    end x
  end.


End logs.

(** A member of a document whose name selects field [f]. *)
Definition selects (f : string) (m : string * JSON) : bool :=
  bool_decide (json.foldName m.1 = f).

(** The members of a document that select a field of [Cassette]. *)
Definition Cassette_member (m : string * JSON) : bool :=
  selects "version" m || selects "interactions" m.

(** ** More closed examples *)

Module cases.
Section data.
Local Existing Instance mem.lib.

(** The request of [TestSimple] sent with a header and a body. *)
Definition golang_request_with_body : http_Request :=
  {| Method := "GET"; URL := "http://golang.org/";
     Header_ := Some {["X-Trace" := Some ["1"]]}; Form := None;
     Body := "ping" |}.

(** A second exchange with the same method and URL. *)
Definition golang_org_again : Interaction :=
  {| Interaction_Request :=
       Build_Request "" None None "http://golang.org/" "GET";
     Interaction_Response := Build_Response "moved" None "301 Moved" 301 |}.

(** A file system on which every call fails. *)
Definition denied : handler unit := λ X c,
  match c in call X return unit → X * unit with
  | ioutil_ReadFile _ => λ s, (inr mem.ENOENT, s)
  | os_Stat _ => λ s, (Some mem.ENOENT, s)
  | os_MkdirAll _ _ => λ s, (Some mem.ENOTDIR, s)
  | os_Create _ => λ s, (inr mem.ENOENT, s)
  | File_Write _ _ => λ s, (Some mem.EBADF, s)
  | File_Close _ => λ s, (Some mem.EBADF, s)
  end.

(** A file system on which every call succeeds but [Close]. *)
Definition unflushed : handler unit := λ X c,
  match c in call X return unit → X * unit with
  | ioutil_ReadFile _ => λ s, (inl mem.Empty, s)
  | os_Stat _ => λ s, (None, s)
  | os_MkdirAll _ _ => λ s, (None, s)
  | os_Create name => λ s, (inl name, s)
  | File_Write _ _ => λ s, (None, s)
  | File_Close _ => λ s, (Some mem.EBADF, s)
  end.

(** A fixture whose document is [null]. *)
Definition null_document : mem.fs :=
  {| mem.files := {["null.json" := mem.Doc JNull]}; mem.dirs := {["."]} |}.

(** A fixture with members that select no field, and no version. *)
Definition annotated : mem.fs :=
  {| mem.files :=
       {["notes.json" :=
           mem.Doc (JObject [("comment", JString "recorded by hand");
                             ("Interactions", JArray [JNull]);
                             ("name", JString "other")])]};
     mem.dirs := {["."]} |}.

(** A fixture whose version does not fit an [int]. *)
Definition huge_version : mem.fs :=
  {| mem.files :=
       {["huge.json" :=
           mem.Doc (saved_document (2 ^ 63) [Some example.golang_org])]};
     mem.dirs := {["."]} |}.

End data.
End cases.

(** Case analysis on what the file system returns to [Save]. *)
Ltac save_paths h c s :=
  unfold Save, write_file, MarshalIndent;
  case_bool_decide; cbn [run log trace]; [|
  destruct (h _ (os_Stat (filepath_Dir (Cassette_File c))) s) as [serr s0] eqn:Hstat;
  destruct (IsNotExist serr) eqn:Hne; cbn [run log trace];
  [ destruct (h _ (os_MkdirAll (filepath_Dir (Cassette_File c)) 493) s0)
      as [[merr|] s1] eqn:Hmk; cbn [run log trace];
    [| destruct (h _ (os_Create (Cassette_File c)) s1) as [[f|cerr] s2] eqn:Hcr;
       cbn [run log trace];
       [ destruct (h _ (File_Write f (json_text (enc_Cassette c))) s2)
           as [werr s3] eqn:Hwr; cbn [run log trace];
         destruct (h _ (File_Close f) s3) as [clerr s4] eqn:Hcl;
         cbn [run log trace] |] ]
  | destruct (h _ (os_Create (Cassette_File c)) s0) as [[f|cerr] s2] eqn:Hcr;
    cbn [run log trace];
    [ destruct (h _ (File_Write f (json_text (enc_Cassette c))) s2)
        as [werr s3] eqn:Hwr; cbn [run log trace];
      destruct (h _ (File_Close f) s3) as [clerr s4] eqn:Hcl;
      cbn [run log trace] |] ] ].

(** ** Goroutines in [AddInteraction] and [GetInteraction]

    Any number of goroutines, each calling one of the two methods on the
    same cassette, run one statement at a time in any order. A lookup
    takes the shared side of the mutex as in [Concurrent]; an append takes
    the exclusive side, which waits for the writer and for every reader.
    A waiting [Lock] keeps no reader out here: every run of the Go mutex
    is a run of this one. The statement
    [c.Interactions = append(c.Interactions, i)] is two steps, the read of
    the slice and the assignment. *)

Module Goroutines.
Section mixed.
Context {go : GoLib}.

(** Where a goroutine stands in [AddInteraction]. *)
Inductive append_pc :=
| AtLock                                     (* c.Lock() *)
| AtAppend                                   (* append(c.Interactions, i) *)
| AtAssign (new : list (ptr Interaction))    (* c.Interactions = ... *)
| AtUnlock                                   (* c.Unlock() *)
| Returned.

Inductive goroutine :=
| Lookup (r : http_Request) (p : Concurrent.pc)
| Append (i : ptr Interaction) (p : append_pc).

Definition set_Interactions (c : Cassette) (l : list (ptr Interaction))
  : Cassette :=
  {| Cassette_Name := Cassette_Name c;
     Cassette_File := Cassette_File c;
     Cassette_Version := Cassette_Version c;
     Cassette_Interactions := Some l;
     Cassette_Matcher := Cassette_Matcher c |}.

(** One statement of [AddInteraction]; [None] when the goroutine waits for
    the mutex or has returned. *)
Definition append_step (i : ptr Interaction) (p : append_pc)
    (s : Concurrent.shared) : option (append_pc * Concurrent.shared) :=
  match p with
  | AtLock =>
    if Concurrent.writer (Concurrent.mu s)
       || negb (Concurrent.readers (Concurrent.mu s) =? 0)%nat
    then None
    else Some (AtAppend,
               {| Concurrent.mu :=
                    {| Concurrent.readers := Concurrent.readers (Concurrent.mu s);
                       Concurrent.writer := true |};
                  Concurrent.cassette := Concurrent.cassette s |})
  | AtAppend =>
    Some (AtAssign
            (elems (Cassette_Interactions (Concurrent.cassette s)) ++ [i]), s)
  | AtAssign new =>
    Some (AtUnlock,
          {| Concurrent.mu := Concurrent.mu s;
             Concurrent.cassette :=
               set_Interactions (Concurrent.cassette s) new |})
  | AtUnlock =>
    Some (Returned,
          {| Concurrent.mu :=
               {| Concurrent.readers := Concurrent.readers (Concurrent.mu s);
                  Concurrent.writer := false |};
             Concurrent.cassette := Concurrent.cassette s |})
  | Returned => None
  end.

Definition step (g : goroutine) (s : Concurrent.shared)
  : option (goroutine * Concurrent.shared) :=
  match g with
  | Lookup r p =>
    match Concurrent.step r p s with
    | Some (p', s') => Some (Lookup r p', s')
    | None => None
    end
  | Append i p =>
    match append_step i p s with
    | Some (p', s') => Some (Append i p', s')
    | None => None
    end
  end.

Definition system : Type := list goroutine * Concurrent.shared.

(** The scheduler lets goroutine [t] make one step, if it can. *)
Definition sched_step (t : nat) (σ : system) : system :=
  match σ.1 !! t with
  | Some g =>
    match step g σ.2 with
    | Some (g', s') => (<[t := g']> σ.1, s')
    | None => σ
    end
  | None => σ
  end.

Definition exec (schedule : list nat) (σ : system) : system :=
  foldl (λ σ t, sched_step t σ) σ schedule.

(** The calls the goroutines make. *)
Inductive invocation :=
| Get (r : http_Request)
| Add (i : ptr Interaction).

Definition spawn (v : invocation) : goroutine :=
  match v with
  | Get r => Lookup r Concurrent.AtRLock
  | Add i => Append i AtLock
  end.

(** One goroutine for each call, none started, nobody holding the mutex. *)
Definition start (vs : list invocation) (c : Cassette) : system :=
  (spawn <$> vs,
   {| Concurrent.mu := {| Concurrent.readers := 0; Concurrent.writer := false |};
      Concurrent.cassette := c |}).

(** What a call adds to the sequence. *)
Definition added (v : invocation) : option (ptr Interaction) :=
  match v with
  | Add i => Some i
  | Get _ => None
  end.

(** A goroutine between [RLock] and [RUnlock]. *)
Definition reading (g : goroutine) : nat :=
  match g with
  | Lookup _ (Concurrent.InLoop _) | Lookup _ (Concurrent.AtRUnlock _) => 1
  | _ => 0
  end.

(** A goroutine between [Lock] and [Unlock]. *)
Definition writing (g : goroutine) : nat :=
  match g with
  | Append _ AtAppend | Append _ (AtAssign _) | Append _ AtUnlock => 1
  | _ => 0
  end.

(** The interaction a goroutine has assigned into the sequence. *)
Definition stored (g : goroutine) : option (ptr Interaction) :=
  match g with
  | Append i AtUnlock | Append i Returned => Some i
  | _ => None
  end.

(** The interaction a goroutine is to add. *)
Definition adds (g : goroutine) : option (ptr Interaction) :=
  match g with
  | Append i _ => Some i
  | Lookup _ _ => None
  end.

Definition returned (g : goroutine) : Prop :=
  match g with
  | Lookup _ (Concurrent.Done _) | Append _ Returned => True
  | _ => False
  end.

(** A lookup result is that of one lookup alone on the sequence as it
    stood at some moment: the first [k] entries of [current], no fewer
    than the [n] entries the goroutines started from. *)
Definition at_a_moment (m : Matcher) (n : nat) (current : list (ptr Interaction))
    (r : http_Request) (res : outcome (ptr Interaction * option error)) : Prop :=
  ∃ k, (n ≤ k ≤ length current)%nat ∧ res = scan m r (take k current).


(** What each goroutine holds, against the current sequence. *)
Definition consistent (c : Cassette) (current : list (ptr Interaction))
    (g : goroutine) : Prop :=
  match g with
  | Lookup r (Concurrent.InLoop rest) =>
    scan (Cassette_Matcher c) r rest = scan (Cassette_Matcher c) r current
  | Lookup r (Concurrent.AtRUnlock res) | Lookup r (Concurrent.Done res) =>
    at_a_moment (Cassette_Matcher c) (length (elems (Cassette_Interactions c)))
      current r res
  | Append i (AtAssign new) => new = current ++ [i]
  | _ => True
  end.

(** What every schedule keeps, from cassette [c] and goroutines [gs0]. *)
Record invariant (c : Cassette) (gs0 : list goroutine) (σ : system) : Prop := {
  inv_readers :
    Concurrent.readers (Concurrent.mu σ.2) = sum_list (reading <$> σ.1);
  inv_writer :
    Nat.b2n (Concurrent.writer (Concurrent.mu σ.2)) = sum_list (writing <$> σ.1);
  inv_exclusive :
    Concurrent.writer (Concurrent.mu σ.2) = true →
    Concurrent.readers (Concurrent.mu σ.2) = 0%nat;
  inv_sequence :
    ∃ l', elems (Cassette_Interactions (Concurrent.cassette σ.2))
          = elems (Cassette_Interactions c) ++ l'
          ∧ l' ≡ₚ omap stored σ.1;
  inv_fields :
    Cassette_Name (Concurrent.cassette σ.2) = Cassette_Name c
    ∧ Cassette_File (Concurrent.cassette σ.2) = Cassette_File c
    ∧ Cassette_Version (Concurrent.cassette σ.2) = Cassette_Version c
    ∧ Cassette_Matcher (Concurrent.cassette σ.2) = Cassette_Matcher c;
  inv_consistent :
    Forall (consistent c
              (elems (Cassette_Interactions (Concurrent.cassette σ.2)))) σ.1;
  inv_adds : omap adds σ.1 = omap adds gs0;
}.

End mixed.
End Goroutines.

(** ** Proof support *)

(** One member of an object stored into a map. *)
Definition put (m : gmap string (option (list string)))
    (kv : string * option (list string)) : gmap string (option (list string)) :=
  <[kv.1 := kv.2]> m.

(** Member names of the documents are closed strings: evaluate their
    folding. *)
Ltac field_names :=
  repeat match goal with
  | |- context [json.foldName (toValidUTF8 ?n)] =>
    let n' := eval vm_compute in (json.foldName (toValidUTF8 n)) in
    change (json.foldName (toValidUTF8 n)) with n'
  end.

(** Decide the comparisons of a closed member name with the field names. *)
Ltac pick_field :=
  repeat first
    [ rewrite bool_decide_eq_true_2 by reflexivity
    | rewrite bool_decide_eq_false_2 by discriminate ].

(** * Properties *)

(** ** Matching and lookup *)

Section lookup.
Context {go : GoLib}.

(** C2: [DefaultMatcher r i] is true exactly when the method of [r] is the
    method of [i] and the URL of [r], printed in full, is the URL of [i];
    replacing the headers, the form values and the body of either request
    by any others does not change its result. *)
Theorem DefaultMatcher_method_and_URL (r : http_Request) (i : Request) :
  (DefaultMatcher r i = true ↔
     Method r = Request_Method i ∧ URL_String (URL r) = Request_URL i)
  ∧ ∀ h f b ih iform ib,
      DefaultMatcher
        {| Method := Method r; URL := URL r; Header_ := h; Form := f; Body := b |}
        (Build_Request ib iform ih (Request_URL i) (Request_Method i))
      = DefaultMatcher r i.
Proof.
  split; [|done].
  unfold DefaultMatcher.
  rewrite andb_true_iff, !bool_decide_eq_true. done.
Qed.

(** C7: [New name] has format version 1, an empty interaction sequence,
    the default matcher, and the name with [".json"] appended as its path.
    [New] is a function of its argument alone: it makes no call. *)
Theorem New_empty_cassette (name : string) :
  Cassette_Version (New name) = 1
  ∧ Cassette_Interactions (New name) = Some []
  ∧ length (elems (Cassette_Interactions (New name))) = 0%nat
  ∧ Cassette_Matcher (New name) = DefaultMatcher
  ∧ Cassette_Name (New name) = name
  ∧ Cassette_File (New name) = name +:+ ".json".
Proof. done. Qed.

Lemma GetInteraction_cassette (c : Cassette) (r : http_Request) :
  (GetInteraction c r).2 = c.
Proof. done. Qed.

Lemma scan_rejected (m : Matcher) (r : http_Request) (l : list (ptr Interaction)) :
  forallb (rejects m r) l = true →
  scan m r l = Return (None, Some ErrInteractionNotFound).
Proof.
  induction l as [|[i|] l IH]; simpl; [done| |done].
  rewrite andb_true_iff, negb_true_iff. intros [-> ?]. auto.
Qed.


End lookup.


(** C1, on the code: the cassette of [TestSimple] holds one interaction
    that matches the request. [GetInteraction] returns it and leaves it in
    the sequence, and the second identical lookup returns it again, where
    the claim has it fail with [ErrInteractionNotFound]. *)
Theorem GetInteraction_twice_found :
  let first := GetInteraction (go := mem.lib) example.golang_cassette
                 example.golang_request in
  let second := GetInteraction first.2 example.golang_request in
  first.1 = Return (Some example.golang_org, None)
  ∧ Cassette_Interactions first.2 = Some [Some example.golang_org]
  ∧ second.1 = Return (Some example.golang_org, None).
Proof. done. Qed.

(** ** Persistence *)

Section persistence_properties.
Context {go : GoLib}.

(** C3: [Save] of a cassette whose sequence is empty is the body that
    returns nil at once. It makes no call: on every file system it returns
    success, the calls it has made are none, and the state, every existing
    file included, is the one it started from. *)
Theorem Save_empty_no_call (c : Cassette) :
  elems (Cassette_Interactions c) = [] →
  Save c = Ret None
  ∧ ∀ fs (h : handler fs) (s : fs),
      run h (Save c) s = (None, s) ∧ trace h (Save c) s = [].
Proof.
  intros Hempty. unfold Save. rewrite Hempty. done.
Qed.

(** [Unmarshal] writes to [Version] and [Interactions] only. *)
Lemma Unmarshal_untagged (data : bytes) (c0 c1 : Cassette) (e : option error) :
  Unmarshal data c0 = (Some c1, e) →
  Cassette_Name c1 = Cassette_Name c0
  ∧ Cassette_File c1 = Cassette_File c0
  ∧ Cassette_Matcher c1 = Cassette_Matcher c0.
Proof.
  unfold Unmarshal. destruct (json_scan data) as [j|]; [|by intros [= <- _]].
  destruct j; try done;
    destruct (json.dec_struct _ _ _ _) as [d errs]; by intros [= <- _].
Qed.

(** When [Unmarshal] returns an error the pointer it was given still
    points to a cassette, the one passed when the text does not scan. *)
Lemma Unmarshal_error (data : bytes) (c0 : Cassette) (e : error) :
  (Unmarshal data c0).2 = Some e →
  ∃ c1, Unmarshal data c0 = (Some c1, Some e)
        ∧ (json_scan data = None → c1 = c0).
Proof.
  unfold Unmarshal. destruct (json_scan data) as [j|].
  - destruct j; try done;
      destruct (json.dec_struct _ _ _ _) as [d errs]; simpl;
      intros ->; eexists; split; done.
  - simpl. intros [= <-]. by exists c0.
Qed.

Lemma run_Load {fs} (h : handler fs) (s : fs) (name : string) :
  run h (Load name) s =
  match h _ (ioutil_ReadFile (name +:+ ".json")) s with
  | (inl data, s') => (Unmarshal data (New name), s')
  | (inr err, s') => ((None, Some (OsError err)), s')
  end.
Proof.
  unfold Load. simpl.
  by destruct (h _ (ioutil_ReadFile (name +:+ ".json")) s) as [[data|err] s'].
Qed.

(** C10: when the file of the fixture is read and its contents fail to
    decode, [Load] returns the decoding error together with a cassette,
    not nil: the cassette has the name, the derived path and the default
    matcher of the one [New] made, and is that very cassette when the
    contents are no JSON text. When the file cannot be read, what [Load]
    returns with the error is nil. *)
Theorem Load_decode_error {fs} (h : handler fs) (s s' : fs) (name : string)
    (data : bytes) (e : error) :
  h _ (ioutil_ReadFile (name +:+ ".json")) s = (inl data, s') →
  (Unmarshal data (New name)).2 = Some e →
  (∃ c, run h (Load name) s = ((Some c, Some e), s')
        ∧ Cassette_Name c = name
        ∧ Cassette_File c = name +:+ ".json"
        ∧ Cassette_Matcher c = DefaultMatcher
        ∧ (json_scan data = None → c = New name))
  ∧ ∀ s0 s1 err,
      h _ (ioutil_ReadFile (name +:+ ".json")) s0 = (inr err, s1) →
      run h (Load name) s0 = ((None, Some (OsError err)), s1).
Proof.
  intros Hread Herr. split.
  - apply Unmarshal_error in Herr as (c & Hc & Hsame).
    exists c. rewrite run_Load, Hread, Hc.
    apply Unmarshal_untagged in Hc as (? & ? & ?). done.
  - intros s0 s1 err Hfail. by rewrite run_Load, Hfail.
Qed.

(** C8: the cassette a successful [Load] returns has the default matcher.
    The decoder never assigns the [Matcher] field, whatever the document
    holds, and the document [Save] writes does not depend on it: a matcher
    set before saving is not there after loading. *)
Theorem Load_Matcher_default {fs} (h : handler fs) (s s' : fs) (name : string)
    (c : Cassette) :
  run h (Load name) s = ((Some c, None), s') →
  Cassette_Matcher c = DefaultMatcher
  ∧ (∀ data c0 c1 e,
       Unmarshal data c0 = (Some c1, e) →
       Cassette_Matcher c1 = Cassette_Matcher c0)
  ∧ (∀ c0 m,
       MarshalIndent
         {| Cassette_Name := Cassette_Name c0;
            Cassette_File := Cassette_File c0;
            Cassette_Version := Cassette_Version c0;
            Cassette_Interactions := Cassette_Interactions c0;
            Cassette_Matcher := m |}
       = MarshalIndent c0).
Proof.
  intros Hload. split_and!; [|by intros ???? (_&_&?)%Unmarshal_untagged|done].
  rewrite run_Load in Hload.
  destruct (h _ (ioutil_ReadFile (name +:+ ".json")) s) as [[data|err] s1];
    [|done].
  injection Hload as Hload _.
  by apply Unmarshal_untagged in Hload as (_ & _ & ->).
Qed.

End persistence_properties.

Lemma Save_empty_no_call_witness :
  Save (go := mem.lib) (New "fixtures/empty") = Ret None
  ∧ ∀ fs (h : handler (go := mem.lib) fs) (s : fs),
      run h (Save (New "fixtures/empty")) s = (None, s)
      ∧ trace h (Save (New "fixtures/empty")) s = [].
Proof. apply Save_empty_no_call. reflexivity. Defined.

(** ** Decoding what the encoder wrote *)

Section codec.

Lemma utf8b_coerce s : utf8b s = true → toValidUTF8 s = s.
Proof. unfold utf8b. by intros ?%bool_decide_eq_true. Qed.

Lemma dec_elems_fresh {A} (dec : JSON → A → A * list json_error) (zero : A)
    (enc : A → JSON) (l : list A) :
  Forall (λ x, dec (enc x) zero = (x, [])) l →
  json.dec_elems dec zero (enc <$> l) [] = (l, [], []).
Proof.
  induction 1 as [|x l Hx _ IH]; [done|].
  cbn [fmap list_fmap json.dec_elems head tail default].
  change (list_fmap A JSON enc l) with (enc <$> l).
  by rewrite Hx, IH.
Qed.

Lemma dec_slice_fresh {A} (dec : JSON → A → A * list json_error) (zero : A)
    (t : go_type) (enc : A → JSON) (s cur : option (list A)) :
  elems cur = [] →
  Forall (λ x, dec (enc x) zero = (x, [])) (elems s) →
  json.dec_slice dec zero t (from_option (λ l, JArray (enc <$> l)) JNull s) cur []
  = (s, [], []).
Proof.
  intros Hcur Hs. destruct s as [[|x l]|]; try done.
  pose proof (dec_elems_fresh dec zero enc (x :: l) Hs) as E.
  unfold json.dec_slice. rewrite Hcur. simpl in E |- *. by rewrite E.
Qed.

Lemma dec_strings_enc (s : option (list string)) :
  plain_strings s = true →
  json.dec_strings (json_coerce (json.enc_strings s)) = (s, []).
Proof.
  intros Hs. unfold json.dec_strings.
  replace (json_coerce (json.enc_strings s))
    with (from_option (λ l, JArray ((λ x, JString (toValidUTF8 x)) <$> l)) JNull s).
  2:{ destruct s as [l|]; [|done]. simpl. f_equal.
      by rewrite <-list_fmap_compose. }
  rewrite dec_slice_fresh; [done|done|].
  unfold plain_strings in Hs. rewrite forallb_forall in Hs.
  apply Forall_forall. intros x Hx%list_elem_of_In%Hs.
  simpl. by rewrite utf8b_coerce.
Qed.

Lemma dec_map_members_enc (l : list (string * option (list string))) m0 :
  forallb (λ kv, utf8b kv.1 && plain_strings kv.2) l = true →
  json.dec_map_members
    ((λ m, (toValidUTF8 m.1, json_coerce m.2)) <$> ((λ kv, (kv.1, json.enc_strings kv.2)) <$> l)) m0
  = (foldl put m0 l, []).
Proof.
  revert m0. induction l as [|[k v] l IH]; intros m0; [done|].
  cbn [forallb]. rewrite !andb_true_iff. intros [[Hk Hv] Hl].
  cbn [fmap list_fmap json.dec_map_members fst snd].
  rewrite dec_strings_enc by done.
  change (list_fmap ?A ?B ?f ?l) with (f <$> l).
  rewrite IH by done. by rewrite utf8b_coerce.
Qed.

Lemma foldl_put_lookup (l : list (string * option (list string))) m0 k :
  NoDup l.*1 →
  foldl put m0 l !! k =
  match (list_to_map l : gmap string (option (list string))) !! k with
  | Some v => Some v
  | None => m0 !! k
  end.
Proof.
  revert m0. induction l as [|[k' v] l IH]; intros m0 Hnd.
  - simpl. by rewrite lookup_empty.
  - apply NoDup_cons in Hnd as [Hk' Hnd]. simpl. rewrite IH by done.
    unfold put. simpl.
    destruct (decide (k' = k)) as [->|Hne].
    + rewrite lookup_insert_eq.
      by rewrite (not_elem_of_list_to_map_1 _ _ Hk'), lookup_insert_eq.
    + by rewrite !lookup_insert_ne.
Qed.

Lemma foldl_put_sorted (m : gmap string (option (list string))) :
  foldl put ∅ (merge_sort json.key_le (map_to_list m)) = m.
Proof.
  assert (Hp : merge_sort json.key_le (map_to_list m) ≡ₚ map_to_list m)
    by apply merge_sort_Permutation.
  assert (Hnd : NoDup (merge_sort json.key_le (map_to_list m)).*1).
  { rewrite Hp. apply NoDup_fst_map_to_list. }
  apply map_eq. intros k. rewrite foldl_put_lookup by done.
  rewrite (list_to_map_proper _ _ Hnd Hp), list_to_map_to_list, lookup_empty.
  by destruct (m !! k).
Qed.

Lemma dec_map_enc (m : Header) :
  plain_map m = true →
  json.dec_map (json_coerce (json.enc_map m)) None = (m, []).
Proof.
  destruct m as [m|]; [|done].
  unfold plain_map. cbn [default]. intros Hm.
  cbn [json.enc_map json_coerce json.dec_map default].
  change (list_fmap ?A ?B ?f ?l) with (f <$> l).
  rewrite dec_map_members_enc.
  - by rewrite foldl_put_sorted.
  - rewrite forallb_forall in Hm |- *. intros kv Hkv. apply Hm.
    apply list_elem_of_In. apply list_elem_of_In in Hkv.
    by rewrite merge_sort_Permutation in Hkv.
Qed.

Lemma dec_Request_enc (r : Request) :
  plain_Request r = true →
  json.dec_struct json.Request_field TRequest (json_coerce (json.enc_Request r))
    (Interaction_Request json.zero_Interaction) = (r, []).
Proof.
  destruct r as [body form headers url method]. unfold plain_Request.
  cbn [Request_Body Request_Form Request_Headers Request_URL Request_Method].
  rewrite !andb_true_iff. intros [[[[Hb Hf] Hh] Hu] Hm].
  unfold json.enc_Request.
  cbn [json_coerce fmap list_fmap fst snd json.dec_struct json.dec_members
       Request_Body Request_Form Request_Headers Request_URL Request_Method].
  field_names. unfold json.Request_field. pick_field.
  cbn [json.dec_string json.zero_Interaction Interaction_Request
       Request_Body Request_Form Request_Headers Request_URL Request_Method].
  rewrite !dec_map_enc by done. rewrite !utf8b_coerce by done. done.
Qed.

Lemma dec_int_enc (z cur : Z) :
  is_int z → json.dec_int (JNumber (Integer z)) cur = (z, []).
Proof. intros Hz. unfold json.dec_int. by rewrite bool_decide_eq_true_2. Qed.

Lemma dec_Response_enc (r : Response) :
  plain_Response r = true →
  json.dec_struct json.Response_field TResponse (json_coerce (json.enc_Response r))
    (Interaction_Response json.zero_Interaction) = (r, []).
Proof.
  destruct r as [body headers status code]. unfold plain_Response.
  cbn [Response_Body Response_Headers Response_Status Response_Code].
  rewrite !andb_true_iff, bool_decide_eq_true. intros [[[Hb Hh] Hs] Hc].
  unfold json.enc_Response.
  cbn [json_coerce fmap list_fmap fst snd json.dec_struct json.dec_members
       Response_Body Response_Headers Response_Status Response_Code].
  field_names. unfold json.Response_field. pick_field.
  cbn [json.dec_string json.zero_Interaction Interaction_Response
       Response_Body Response_Headers Response_Status Response_Code].
  rewrite !dec_map_enc by done.
  cbn [Response_Body Response_Headers Response_Status Response_Code].
  rewrite dec_int_enc by done. rewrite !utf8b_coerce by done. done.
Qed.

Lemma dec_Interaction_enc (p : ptr Interaction) :
  plain_Interaction p = true →
  json.dec_Interaction (json_coerce (json.enc_Interaction p)) None = (p, []).
Proof.
  destruct p as [[rq rs]|]; [|done].
  cbn [plain_Interaction Interaction_Request Interaction_Response].
  rewrite andb_true_iff. intros [Hrq Hrs].
  unfold json.enc_Interaction, json.dec_Interaction.
  cbn [json_coerce fmap list_fmap fst snd json.dec_struct json.dec_members default
       Interaction_Request Interaction_Response].
  field_names. unfold json.Interaction_field. pick_field.
  rewrite dec_Request_enc by done.
  cbn [Interaction_Request Interaction_Response].
  rewrite dec_Response_enc by done. done.
Qed.

Lemma dec_Cassette_enc (v : Z) (s cur : option (list (ptr Interaction))) (v0 : Z) :
  elems cur = [] →
  is_int v →
  forallb plain_Interaction (elems s) = true →
  json.dec_struct json.Cassette_field TCassette
    (json_coerce (JObject [("version", JNumber (Integer v));
                           ("interactions", json.enc_Interactions s)]))
    (json.Build_document v0 cur [])
  = (json.Build_document v s [], []).
Proof.
  intros Hcur Hv Hs.
  cbn [json_coerce fmap list_fmap fst snd json.dec_struct json.dec_members].
  field_names. unfold json.Cassette_field. pick_field.
  cbn [json.doc_Version json.doc_Interactions json.doc_spare].
  rewrite dec_int_enc by done.
  cbn [json.doc_Version json.doc_Interactions json.doc_spare].
  replace (json_coerce (json.enc_Interactions s))
    with (from_option
            (λ l, JArray ((λ p, json_coerce (json.enc_Interaction p)) <$> l))
            JNull s).
  2:{ destruct s as [l|]; [|done]. simpl. f_equal.
      by rewrite <-list_fmap_compose. }
  rewrite dec_slice_fresh; [done|done|].
  rewrite forallb_forall in Hs. apply Forall_forall.
  intros p Hp%list_elem_of_In%Hs. by apply dec_Interaction_enc.
Qed.

End codec.

Section plain_documents.

Lemma coerce_enc_strings (s : option (list string)) :
  plain_strings s = true → json_coerce (json.enc_strings s) = json.enc_strings s.
Proof.
  destruct s as [l|]; [|done]. unfold plain_strings. cbn [elems default].
  intros Hl. cbn [json.enc_strings json_coerce]. f_equal.
  rewrite forallb_forall in Hl.
  induction l as [|x l IH]; [done|]. cbn [fmap list_fmap json_coerce].
  rewrite utf8b_coerce by (apply Hl; by left).
  f_equal. apply IH. intros y Hy. apply Hl. by right.
Qed.

Lemma coerce_enc_map (m : Header) :
  plain_map m = true → json_coerce (json.enc_map m) = json.enc_map m.
Proof.
  destruct m as [m|]; [|done]. unfold plain_map. cbn [default].
  intros Hm. cbn [json.enc_map json_coerce]. f_equal.
  assert (Hs : forallb (λ kv, utf8b kv.1 && plain_strings kv.2)
                 (merge_sort json.key_le (map_to_list m)) = true).
  { rewrite forallb_forall in Hm |- *. intros kv Hkv. apply Hm.
    apply list_elem_of_In. apply list_elem_of_In in Hkv.
    by rewrite merge_sort_Permutation in Hkv. }
  revert Hs. generalize (merge_sort json.key_le (map_to_list m)).
  induction l as [|[k v] l IH]; [done|]. cbn [forallb fst snd].
  rewrite !andb_true_iff. intros [[Hk Hv] Hl].
  cbn [fmap list_fmap fst snd].
  rewrite utf8b_coerce, coerce_enc_strings by done.
  f_equal. by apply IH.
Qed.

Lemma coerce_enc_Interaction (p : ptr Interaction) :
  plain_Interaction p = true →
  json_coerce (json.enc_Interaction p) = json.enc_Interaction p.
Proof.
  destruct p as [[[b f hd u m] [rb rh rs rc]]|]; [|done].
  unfold plain_Interaction, plain_Request, plain_Response.
  cbn [Interaction_Request Interaction_Response
       Request_Body Request_Form Request_Headers Request_URL Request_Method
       Response_Body Response_Headers Response_Status Response_Code].
  rewrite !andb_true_iff.
  intros [[[[[Hb Hf] Hh] Hu] Hm] [[[Hrb Hrh] Hrs] _]].
  unfold json.enc_Interaction, json.enc_Request, json.enc_Response.
  cbn [json_coerce fmap list_fmap fst snd
       Interaction_Request Interaction_Response
       Request_Body Request_Form Request_Headers Request_URL Request_Method
       Response_Body Response_Headers Response_Status Response_Code].
  rewrite !coerce_enc_map by done. rewrite !utf8b_coerce by done.
  done.
Qed.

Lemma coerce_saved_document (v : Z) (l : list (ptr Interaction)) :
  forallb plain_Interaction l = true →
  json_coerce (saved_document v l) = saved_document v l.
Proof.
  intros Hl.
  assert (Hitems : json_coerce <$> (json.enc_Interaction <$> l)
                   = json.enc_Interaction <$> l).
  { rewrite forallb_forall in Hl.
    induction l as [|p l IH]; [done|]. cbn [fmap list_fmap].
    rewrite coerce_enc_Interaction by (apply Hl; by left).
    f_equal. apply IH. intros y Hy. apply Hl. by right. }
  unfold saved_document. cbn [json_coerce fmap list_fmap fst snd].
  change (list_fmap ?A ?B ?f ?l) with (f <$> l).
  rewrite Hitems. by rewrite !utf8b_coerce by done.
Qed.

End plain_documents.

(** ** Saving and loading *)

Section save_load.
Context {go : GoLib}.

Lemma Unmarshal_saved_document (data : bytes) (c : Cassette) (v : Z)
    (l : list (ptr Interaction)) :
  json_scan data = Some (json_coerce (saved_document v l)) →
  elems (Cassette_Interactions c) = [] →
  is_int v →
  forallb plain_Interaction l = true →
  Unmarshal data c =
  (Some {| Cassette_Name := Cassette_Name c;
           Cassette_File := Cassette_File c;
           Cassette_Version := v;
           Cassette_Interactions := Some l;
           Cassette_Matcher := Cassette_Matcher c |}, None).
Proof.
  intros Hscan Hcur Hv Hl. unfold Unmarshal. rewrite Hscan.
  pose proof (dec_Cassette_enc v (Some l) (Cassette_Interactions c)
                (Cassette_Version c) Hcur Hv Hl) as Hdec.
  change (JObject [("version", JNumber (Integer v));
                   ("interactions", json.enc_Interactions (Some l))])
    with (saved_document v l) in Hdec.
  destruct (json_coerce (saved_document v l)) eqn:Hj; try done.
  by rewrite Hdec.
Qed.


(** C4, as the code has it: [Load] does not check the version. For every
    fixture file whose document is of the form [Save] writes, with any
    integer [v] that an [int] holds as its version, 1 or not, [Load]
    returns no error and a cassette whose version is [v] and whose
    sequence is the one of the document. *)
Theorem Load_any_version {fs} (h : handler fs) (s s' : fs) (name : string)
    (data : bytes) (v : Z) (l : list (ptr Interaction)) :
  h _ (ioutil_ReadFile (name +:+ ".json")) s = (inl data, s') →
  json_scan data = Some (saved_document v l) →
  is_int v →
  forallb plain_Interaction l = true →
  ∃ c, run h (Load name) s = ((Some c, None), s')
       ∧ Cassette_Version c = v
       ∧ Cassette_Interactions c = Some l.
Proof.
  intros Hread Hscan Hv Hl.
  rewrite <-(coerce_saved_document v l Hl) in Hscan.
  eexists. rewrite run_Load, Hread.
  rewrite (Unmarshal_saved_document data (New name) v l) by done.
  done.
Qed.

Lemma run_Save_written {fs} (h : handler fs) (s s' : fs) (c : Cassette) :
  elems (Cassette_Interactions c) ≠ [] →
  run h (Save c) s = (None, s') →
  ∃ s0 f s1 s2 e,
    h _ (os_Create (Cassette_File c)) s0 = (inl f, s1)
    ∧ h _ (File_Write f (json_text (enc_Cassette c))) s1 = (None, s2)
    ∧ h _ (File_Close f) s2 = (e, s').
Proof.
  intros Hne. unfold Save.
  rewrite bool_decide_eq_false_2 by (by destruct (elems _)).
  assert (Hwrite : ∀ s0, run h (write_file c) s0 = (None, s') →
    ∃ f s1 s2 e,
      h _ (os_Create (Cassette_File c)) s0 = (inl f, s1)
      ∧ h _ (File_Write f (json_text (enc_Cassette c))) s1 = (None, s2)
      ∧ h _ (File_Close f) s2 = (e, s')).
  { intros s0. unfold write_file, MarshalIndent. cbn [run].
    destruct (h _ (os_Create (Cassette_File c)) s0) as [[f|err] s1] eqn:Hc;
      [|done].
    cbn [run].
    destruct (h _ (File_Write f (json_text (enc_Cassette c))) s1)
      as [[err|] s2] eqn:Hw;
      cbn [run];
      destruct (h _ (File_Close f) s2) as [e s3] eqn:Hcl;
      cbn [run fmap option_fmap option_map];
      [done|].
    intros [= <-]. by exists f, s1, s2, e. }
  cbn [run].
  destruct (h _ (os_Stat (filepath_Dir (Cassette_File c))) s) as [err s0].
  destruct (IsNotExist err).
  - cbn [run].
    destruct (h _ (os_MkdirAll (filepath_Dir (Cassette_File c)) 493) s0)
      as [[e|] s0']; [done|].
    intros Hrun. exists s0'. by apply Hwrite.
  - intros Hrun. exists s0. by apply Hwrite.
Qed.

(** C5, as the code has it: for a cassette with at least one interaction
    whose strings are valid UTF-8, saved with success at the path of
    fixture [name], [Load name] returns no error and a cassette with the
    same version and the same sequence of interactions, field for field
    and in the same order. The document written holds the version and the
    interactions and nothing else. The file system reads back what was
    written, and the scanner reads what the encoder wrote. *)
Theorem Save_Load_round_trip {fs} (h : handler fs) (s s' : fs) (name : string)
    (c : Cassette) :
  scan_text →
  read_after_write h →
  Cassette_File c = name +:+ ".json" →
  elems (Cassette_Interactions c) ≠ [] →
  plain_Cassette c = true →
  run h (Save c) s = (None, s') →
  (∃ c', run h (Load name) s' = ((Some c', None), s')
         ∧ Cassette_Version c' = Cassette_Version c
         ∧ Cassette_Interactions c' = Cassette_Interactions c)
  ∧ MarshalIndent c
    = (json_text (saved_document (Cassette_Version c)
                    (elems (Cassette_Interactions c))), None).
Proof.
  intros Hcodec Hfs Hfile Hne Hplain Hsave.
  destruct (Cassette_Interactions c) as [l|] eqn:Hl; [|done].
  assert (Hdoc : enc_Cassette c = saved_document (Cassette_Version c) l).
  { unfold enc_Cassette. by rewrite Hl. }
  split; [|unfold MarshalIndent; by rewrite Hdoc].
  apply run_Save_written in Hsave as (s0 & f & s1 & s2 & e & Hc & Hw & Hcl);
    [|by rewrite Hl].
  pose proof (Hfs _ _ _ _ _ _ _ _ Hc Hw Hcl) as Hread.
  rewrite Hfile in Hread.
  unfold plain_Cassette in Hplain. rewrite Hl in Hplain.
  apply andb_true_iff in Hplain as [Hv%bool_decide_eq_true Hpl].
  eexists. rewrite run_Load, Hread.
  rewrite (Unmarshal_saved_document _ (New name) (Cassette_Version c) l);
    [done| |done|done|done].
  by rewrite Hdoc, Hcodec.
Qed.

End save_load.

(** The instance in memory keeps the two laws. *)

Lemma mem_scan_text : scan_text (go := mem.lib).
Proof. intros j. reflexivity. Qed.

Lemma mem_read_after_write : read_after_write (go := mem.lib) mem.exec.
Proof.
  intros name f data s s1 s2 s3 e.
  cbn [mem.exec].
  intros Hc Hw Hcl.
  assert (f = name ∧ mem.files s1 !! name = Some mem.Empty) as [-> Hs1].
  { repeat case_bool_decide; try done. injection Hc as <- <-.
    cbn [mem.files]. by rewrite lookup_insert_eq. }
  rewrite Hs1 in Hw. injection Hw as <-. injection Hcl as _ <-.
  cbn [mem.files]. by rewrite lookup_insert_eq.
Qed.

(** ** The statements above on the closed examples *)

Section closed.
Local Existing Instance mem.lib.

Lemma Load_decode_error_witness :
  (∃ c, run mem.exec (Load "broken") example.garbled
        = ((Some c, Some (JsonError SyntaxError)), example.garbled)
        ∧ Cassette_Name c = "broken"
        ∧ Cassette_File c = "broken.json"
        ∧ Cassette_Matcher c = DefaultMatcher
        ∧ (json_scan mem.Garbage = None → c = New "broken"))
  ∧ ∀ s0 s1 err,
      mem.exec _ (ioutil_ReadFile "broken.json") s0 = (inr err, s1) →
      run mem.exec (Load "broken") s0 = ((None, Some (OsError err)), s1).
Proof.
  apply (Load_decode_error mem.exec example.garbled example.garbled "broken"
           mem.Garbage (JsonError SyntaxError)); reflexivity.
Defined.

(** A document whose interactions are of the wrong kind: [Load] returns the
    type error and the cassette of [New] with the version overwritten. *)
Lemma Load_mistyped_overwrites_version :
  (run mem.exec (Load "odd") example.mistyped).1
  = (Some {| Cassette_Name := "odd";
             Cassette_File := "odd.json";
             Cassette_Version := 7;
             Cassette_Interactions := Some [];
             Cassette_Matcher := DefaultMatcher |},
     Some (JsonError (UnmarshalTypeError KString TInteractions))).
Proof. vm_compute. reflexivity. Qed.

Lemma Load_Matcher_default_witness :
  Cassette_Matcher example.loaded_v2 = DefaultMatcher
  ∧ (∀ data c0 c1 e,
       Unmarshal data c0 = (Some c1, e) →
       Cassette_Matcher c1 = Cassette_Matcher c0)
  ∧ (∀ c0 m,
       MarshalIndent
         {| Cassette_Name := Cassette_Name c0;
            Cassette_File := Cassette_File c0;
            Cassette_Version := Cassette_Version c0;
            Cassette_Interactions := Cassette_Interactions c0;
            Cassette_Matcher := m |}
       = MarshalIndent c0).
Proof.
  apply (Load_Matcher_default mem.exec example.version_2 example.version_2 "v2").
  vm_compute. reflexivity.
Defined.

(** C4 as the claim has it fails: the document of fixture ["v2"] is well
    formed and its version is 2, and [Load] returns no error and a
    cassette of version 2. *)
Lemma Load_version_2_no_error :
  let loaded := (run mem.exec (Load "v2") example.version_2).1 in
  mem.scan (mem.Doc (saved_document 2 [Some example.golang_org]))
  = Some (saved_document 2 [Some example.golang_org])
  ∧ loaded.2 = None
  ∧ Cassette_Version <$> loaded.1 = Some 2
  ∧ 2 ≠ cassetteFormatV1.
Proof. vm_compute. split_and!; done. Qed.

Lemma Load_any_version_witness :
  ∃ c, run mem.exec (Load "v2") example.version_2
       = ((Some c, None), example.version_2)
       ∧ Cassette_Version c = 2
       ∧ Cassette_Interactions c = Some [Some example.golang_org].
Proof.
  apply (Load_any_version mem.exec example.version_2 example.version_2 "v2"
           (mem.Doc (saved_document 2 [Some example.golang_org])) 2
           [Some example.golang_org]).
  - reflexivity.
  - reflexivity.
  - unfold is_int. lia.
  - vm_compute. reflexivity.
Defined.

(** C5 as the claim has it fails: the cassette holds one interaction whose
    response body is the byte FF. [Save] succeeds, [Load] of the same
    fixture succeeds, and the body it returns is EF BF BD. *)
Lemma Save_Load_binary_body :
  let saved := run mem.exec (Save example.binary_cassette) example.fresh in
  let loaded := (run mem.exec (Load "logo") saved.2).1 in
  saved.1 = None
  ∧ loaded.2 = None
  ∧ (Cassette_Interactions <$> loaded.1)
    ≠ Some (Cassette_Interactions example.binary_cassette)
  ∧ (c ← loaded.1; l ← Cassette_Interactions c; p ← head l; i ← p;
     Some (string_bytes (Response_Body (Interaction_Response i))))
    = Some [239; 191; 189]%N
  ∧ string_bytes example.binary_body = [255]%N.
Proof. vm_compute. split_and!; done. Qed.

Lemma Save_Load_round_trip_witness :
  let s' := (run mem.exec (Save example.golang_cassette) example.fresh).2 in
  (∃ c', run mem.exec (Load "fixtures/golang-org") s' = ((Some c', None), s')
         ∧ Cassette_Version c' = Cassette_Version example.golang_cassette
         ∧ Cassette_Interactions c'
           = Cassette_Interactions example.golang_cassette)
  ∧ MarshalIndent example.golang_cassette
    = (json_text (saved_document (Cassette_Version example.golang_cassette)
                    (elems (Cassette_Interactions example.golang_cassette))),
       None).
Proof.
  apply (Save_Load_round_trip mem.exec example.fresh _ "fixtures/golang-org"
           example.golang_cassette).
  - exact mem_scan_text.
  - exact mem_read_after_write.
  - reflexivity.
  - discriminate.
  - vm_compute. reflexivity.
  - vm_compute. reflexivity.
Defined.

End closed.

(** ** Lookups that run together *)

Section concurrent_lookups.
Context {go : GoLib}.
Import Concurrent.

Lemma step_agrees (c : Cassette) (r : http_Request) (p p' : pc) (s s' : shared) :
  cassette s = c →
  agrees c r p →
  step r p s = Some (p', s') →
  cassette s' = c ∧ agrees c r p'.
Proof.
  intros Hc Hp. destruct p as [|[|[i|] rest]|res|res]; simpl.
  - destruct (writer (mu s)); [done|]. intros [= <- <-]. by rewrite Hc.
  - by intros [= <- <-].
  - rewrite Hc. simpl in Hp.
    destruct (Cassette_Matcher c r (Interaction_Request i)); by intros [= <- <-].
  - by intros [= <- <-].
  - by intros [= <- <-].
  - done.
Qed.

Lemma sched_step_agrees (c : Cassette) (r : http_Request) (t : nat) (σ : system) :
  cassette σ.2 = c →
  Forall (agrees c r) σ.1 →
  cassette (sched_step r t σ).2 = c ∧ Forall (agrees c r) (sched_step r t σ).1.
Proof.
  intros Hc Hall. unfold sched_step.
  destruct (σ.1 !! t) as [p|] eqn:Ht; [|done].
  destruct (step r p σ.2) as [[p' s']|] eqn:Hstep; [|done].
  assert (Hp : agrees c r p) by (eapply Forall_lookup_1; eauto).
  destruct (step_agrees c r p p' σ.2 s' Hc Hp Hstep) as [Hc' Hp'].
  split; [done|]. by apply Forall_insert.
Qed.

(** Whatever the schedule, the cassette is never changed and every lookup
    that has returned has returned what one lookup alone returns. *)
Lemma exec_agrees (c : Cassette) (r : http_Request) (schedule : list nat)
    (σ : system) :
  cassette σ.2 = c →
  Forall (agrees c r) σ.1 →
  cassette (exec r schedule σ).2 = c ∧ Forall (agrees c r) (exec r schedule σ).1.
Proof.
  revert σ. induction schedule as [|t schedule IH]; intros σ Hc Hall; [done|].
  simpl. destruct (sched_step_agrees c r t σ Hc Hall) as [Hc' Hall'].
  by apply IH.
Qed.

Lemma lookups_agree (n : nat) (c : Cassette) (r : http_Request)
    (schedule : list nat) :
  cassette (exec r schedule (start n c)).2 = c
  ∧ Forall (agrees c r) (exec r schedule (start n c)).1.
Proof.
  apply exec_agrees; [done|]. simpl. by apply Forall_replicate.
Qed.

End concurrent_lookups.

(** C9, on the code: two lookups run together on the cassette of
    [TestSimple], which holds one interaction matching the request. The
    lock they take is the shared one and the loop removes nothing: on
    every schedule each lookup that returns has returned that one
    interaction and the cassette still holds it, and on the schedule that
    alternates the two goroutines both have returned it. The claim has one
    of the two fail with [ErrInteractionNotFound]. *)
Theorem lookups_return_same_interaction :
  (∀ schedule,
     let σ := Concurrent.exec (go := mem.lib) example.golang_request schedule
                (Concurrent.start 2 example.golang_cassette) in
     Forall (Concurrent.returned_only example.golang_org) σ.1
     ∧ Cassette_Interactions (Concurrent.cassette σ.2)
       = Some [Some example.golang_org])
  ∧ (Concurrent.exec (go := mem.lib) example.golang_request [0; 1; 0; 1; 0; 1]%nat
       (Concurrent.start 2 example.golang_cassette)).1
    = [Concurrent.Done (Return (Some example.golang_org, None));
       Concurrent.Done (Return (Some example.golang_org, None))].
Proof.
  split; [|done].
  intros schedule σ.
  destruct (lookups_agree (go := mem.lib) 2 example.golang_cassette
              example.golang_request schedule) as [Hc Hall].
  fold σ in Hc, Hall. split; [|by rewrite Hc].
  eapply Forall_impl; [exact Hall|].
  by intros [| | |res].
Qed.

(** * Further properties of the package *)

(** ** The order of lookup *)

Section lookup_order.
Context {go : GoLib}.

Lemma scan_found_iff (m : Matcher) (r : http_Request)
    (l : list (ptr Interaction)) (i : Interaction) :
  scan m r l = Return (Some i, None) ↔
  ∃ l1 l2, l = l1 ++ Some i :: l2
           ∧ forallb (rejects m r) l1 = true
           ∧ m r (Interaction_Request i) = true.
Proof.
  induction l as [|[j|] l IH]; simpl.
  - split; [done|]. by intros ([|??] & ? & ? & _).
  - destruct (m r (Interaction_Request j)) eqn:Hj.
    + split.
      * intros [= ->]. by exists [], l.
      * intros ([|p l1] & l2 & Hl & Hrej & Hi); simplify_eq/=; [done|].
        by rewrite Hj in Hrej.
    + rewrite IH. split.
      * intros (l1 & l2 & -> & Hrej & Hi). exists (Some j :: l1), l2.
        simpl. by rewrite Hj.
      * intros ([|p l1] & l2 & Hl & Hrej & Hi); simplify_eq/=; [congruence|].
        apply andb_true_iff in Hrej as [_ Hrej]. by exists l1, l2.
  - split; [done|].
    intros ([|p l1] & l2 & Hl & Hrej & Hi); simplify_eq/=.
Qed.

Lemma scan_not_found_iff (m : Matcher) (r : http_Request)
    (l : list (ptr Interaction)) :
  scan m r l = Return (None, Some ErrInteractionNotFound) ↔
  forallb (rejects m r) l = true.
Proof.
  split; [|apply scan_rejected].
  induction l as [|[j|] l IH]; simpl; [done| |done].
  destruct (m r (Interaction_Request j)); [done|]. exact IH.
Qed.

Lemma scan_panic_iff (m : Matcher) (r : http_Request)
    (l : list (ptr Interaction)) :
  scan m r l = Panic ↔
  ∃ l1 l2, l = l1 ++ None :: l2 ∧ forallb (rejects m r) l1 = true.
Proof.
  induction l as [|[j|] l IH]; simpl.
  - split; [done|]. by intros ([|??] & ? & ? & _).
  - destruct (m r (Interaction_Request j)) eqn:Hj.
    + split; [done|].
      intros ([|p l1] & l2 & Hl & Hrej); simplify_eq/=.
      by rewrite Hj in Hrej.
    + rewrite IH. split.
      * intros (l1 & l2 & -> & Hrej). exists (Some j :: l1), l2.
        simpl. by rewrite Hj.
      * intros ([|p l1] & l2 & Hl & Hrej); simplify_eq/=.
        apply andb_true_iff in Hrej as [_ Hrej]. by exists l1, l2.
  - split; [|done]. intros _. by exists [], l.
Qed.

(** X1: [GetInteraction] returns interaction [i] exactly when [i] is the
    first entry of the sequence that the matcher accepts and every entry
    before it is an interaction the matcher rejects: the first match
    wins. *)
Theorem GetInteraction_first_match (c : Cassette) (r : http_Request)
    (i : Interaction) :
  (GetInteraction c r).1 = Return (Some i, None) ↔
  ∃ l1 l2, elems (Cassette_Interactions c) = l1 ++ Some i :: l2
           ∧ forallb (rejects (Cassette_Matcher c) r) l1 = true
           ∧ Cassette_Matcher c r (Interaction_Request i) = true.
Proof. apply scan_found_iff. Qed.

(** X2: [GetInteraction] returns [ErrInteractionNotFound] exactly when
    every entry of the sequence is an interaction the matcher rejects; in
    particular it does on an empty or nil sequence, and it does not when
    some entry is nil. *)
Theorem GetInteraction_not_found_iff (c : Cassette) (r : http_Request) :
  ((GetInteraction c r).1 = Return (None, Some ErrInteractionNotFound) ↔
   forallb (rejects (Cassette_Matcher c) r) (elems (Cassette_Interactions c))
   = true)
  ∧ (elems (Cassette_Interactions c) = [] →
     (GetInteraction c r).1 = Return (None, Some ErrInteractionNotFound)).
Proof.
  split; [apply scan_not_found_iff|].
  intros Hl. unfold GetInteraction. by rewrite Hl.
Qed.

(** X3: [GetInteraction] panics exactly when the sequence holds a nil
    entry and every entry before it is an interaction the matcher rejects:
    the loop dereferences each entry it reaches. *)
Theorem GetInteraction_panics_iff (c : Cassette) (r : http_Request) :
  (GetInteraction c r).1 = Panic ↔
  ∃ l1 l2, elems (Cassette_Interactions c) = l1 ++ None :: l2
           ∧ forallb (rejects (Cassette_Matcher c) r) l1 = true.
Proof. apply scan_panic_iff. Qed.

Lemma scan_cases (m : Matcher) (r : http_Request) (l : list (ptr Interaction)) :
  (∃ i, scan m r l = Return (Some i, None))
  ∨ scan m r l = Return (None, Some ErrInteractionNotFound)
  ∨ scan m r l = Panic.
Proof.
  induction l as [|[j|] l IH]; simpl; [by right; left| |by right; right].
  destruct (m r (Interaction_Request j)); [left; by exists j|done].
Qed.

(** X4: what [GetInteraction] returns is an interaction with a nil error,
    or no interaction with [ErrInteractionNotFound]: never both, never
    neither, never another error; and the interaction returned is an entry
    of the sequence whose request the matcher accepts. *)
Theorem GetInteraction_returns (c : Cassette) (r : http_Request)
    (p : ptr Interaction) (e : option error) :
  (GetInteraction c r).1 = Return (p, e) →
  (∃ i, p = Some i ∧ e = None
        ∧ Some i ∈ elems (Cassette_Interactions c)
        ∧ Cassette_Matcher c r (Interaction_Request i) = true)
  ∨ (p = None ∧ e = Some ErrInteractionNotFound).
Proof.
  unfold GetInteraction. simpl. intros Hscan.
  destruct (scan_cases (Cassette_Matcher c) r (elems (Cassette_Interactions c)))
    as [[i Hi]|[Hnf|Hp]].
  - left. exists i. rewrite Hi in Hscan. injection Hscan as <- <-.
    apply scan_found_iff in Hi as (l1 & l2 & -> & _ & Hacc).
    split_and!; [done|done| |done]. set_solver.
  - right. rewrite Hnf in Hscan. by injection Hscan as <- <-.
  - by rewrite Hp in Hscan.
Qed.

Lemma scan_app (m : Matcher) (r : http_Request) (l l' : list (ptr Interaction)) :
  scan m r (l ++ l') =
  match scan m r l with
  | Return (None, _) => scan m r l'
  | o => o
  end.
Proof.
  induction l as [|[j|] l IH]; simpl; [done| |done].
  by destruct (m r (Interaction_Request j)).
Qed.

(** X5: a lookup after [AddInteraction] returns what the lookup before it
    returned, unless that was not-found: then it is decided by the entry
    added alone. An interaction added never takes the place of an earlier
    match, and a lookup that panicked still panics. *)
Theorem AddInteraction_then_GetInteraction (c : Cassette) (j : ptr Interaction)
    (r : http_Request) :
  (GetInteraction (AddInteraction c j) r).1 =
  match (GetInteraction c r).1 with
  | Return (None, _) => scan (Cassette_Matcher c) r [j]
  | o => o
  end.
Proof. unfold GetInteraction, AddInteraction. simpl. apply scan_app. Qed.

Lemma foldl_AddInteraction (c : Cassette) (l : list (ptr Interaction)) :
  elems (Cassette_Interactions (foldl AddInteraction c l))
  = elems (Cassette_Interactions c) ++ l
  ∧ Cassette_Name (foldl AddInteraction c l) = Cassette_Name c
  ∧ Cassette_File (foldl AddInteraction c l) = Cassette_File c
  ∧ Cassette_Version (foldl AddInteraction c l) = Cassette_Version c
  ∧ Cassette_Matcher (foldl AddInteraction c l) = Cassette_Matcher c.
Proof.
  revert c. induction l as [|i l IH]; intros c.
  - simpl. by rewrite app_nil_r.
  - destruct (IH (AddInteraction c i)) as (Hl & ? & ? & ? & ?).
    cbn [foldl]. rewrite Hl. simpl in *. by rewrite <-app_assoc.
Qed.

(** X6: interactions added one after another are in the sequence in the
    order they were added, behind those that were there, none lost and
    none repeated; name, file, version and matcher are untouched. *)
Theorem AddInteraction_all (c : Cassette) (l : list (ptr Interaction)) :
  let c' := foldl AddInteraction c l in
  elems (Cassette_Interactions c') = elems (Cassette_Interactions c) ++ l
  ∧ length (elems (Cassette_Interactions c'))
    = (length (elems (Cassette_Interactions c)) + length l)%nat
  ∧ Cassette_Name c' = Cassette_Name c
  ∧ Cassette_File c' = Cassette_File c
  ∧ Cassette_Version c' = Cassette_Version c
  ∧ Cassette_Matcher c' = Cassette_Matcher c.
Proof.
  intros c'. destruct (foldl_AddInteraction c l) as (Hl & ? & ? & ? & ?).
  fold c' in Hl. split_and!; try done.
  by rewrite Hl, length_app.
Qed.

Lemma scan_DefaultMatcher (r r' : http_Request) (l : list (ptr Interaction)) :
  Method r = Method r' →
  URL_String (URL r) = URL_String (URL r') →
  scan DefaultMatcher r l = scan DefaultMatcher r' l.
Proof.
  intros Hm Hu. induction l as [|[j|] l IH]; simpl; [done| |done].
  unfold DefaultMatcher at 1 3. rewrite Hm, Hu.
  by destruct (_ && _).
Qed.

(** X7: on a cassette with the default matcher, two requests with the same
    method and the same URL text are answered alike, whatever their
    headers, forms and bodies: the same interaction, the same error, or
    the same panic. *)
Theorem GetInteraction_same_method_and_URL (c : Cassette) (r r' : http_Request) :
  Cassette_Matcher c = DefaultMatcher →
  Method r = Method r' →
  URL_String (URL r) = URL_String (URL r') →
  GetInteraction c r = GetInteraction c r'.
Proof.
  intros Hd Hm Hu. unfold GetInteraction. rewrite Hd.
  by rewrite (scan_DefaultMatcher r r').
Qed.

End lookup_order.

Lemma GetInteraction_returns_witness :
  (∃ i, Some example.golang_org = Some i ∧ (None : option (error (go := mem.lib))) = None
        ∧ Some i ∈ elems (Cassette_Interactions example.golang_cassette)
        ∧ Cassette_Matcher example.golang_cassette example.golang_request
            (Interaction_Request i) = true)
  ∨ (Some example.golang_org = None
     ∧ (None : option (error (go := mem.lib))) = Some ErrInteractionNotFound).
Proof.
  apply (GetInteraction_returns (go := mem.lib) example.golang_cassette
           example.golang_request).
  reflexivity.
Defined.

Lemma GetInteraction_same_method_and_URL_witness :
  GetInteraction (go := mem.lib) example.golang_cassette example.golang_request
  = GetInteraction example.golang_cassette cases.golang_request_with_body.
Proof.
  apply GetInteraction_same_method_and_URL; reflexivity.
Defined.

(** ** The calls of [Save] *)

Section save_calls.
Context {go : GoLib}.

(** X8: every file [Save] opens it closes, once, on every path, a failed
    write included, and it closes no other file. *)
Theorem Save_closes_what_it_opens {fs} (h : handler fs) (s : fs) (c : Cassette) :
  omap opened (log h (Save c) s) = omap closed (log h (Save c) s).
Proof. save_paths h c s; done. Qed.

(** X9: the calls [Save] makes are, at most, [os.Stat] and [os.MkdirAll]
    with mode 0755 on the directory of the file of the cassette,
    [os.Create] on that file, one [Write] of the document of the cassette
    and one [Close]: it reads no file and names no other path. *)
Theorem Save_calls_its_own_file {fs} (h : handler fs) (s : fs) (c : Cassette) :
  Forall (Save_call c) (trace h (Save c) s).
Proof. save_paths h c s; repeat constructor. Qed.

(** X10: [Save] returns nil exactly when the cassette has no interaction
    or a write of its document has succeeded. What [Close] returns does
    not count. *)
Theorem Save_succeeds_iff {fs} (h : handler fs) (s : fs) (c : Cassette) :
  (run h (Save c) s).1 = None ↔
  elems (Cassette_Interactions c) = [] ∨ Exists (wrote c) (log h (Save c) s).
Proof.
  assert (Hnil : ∀ l : list (ptr Interaction), length l = 0%nat ↔ l = [])
    by (intros []; done).
  save_paths h c s; rewrite Hnil in *; try destruct werr;
    repeat first [rewrite Exists_cons | rewrite Exists_nil]; simpl;
    intuition congruence.
Qed.


(** X12: when [os.Stat] reports that the directory does not exist and
    [os.MkdirAll] fails, [Save] returns the error of [os.MkdirAll] and has
    made these two calls only: no file is created or written. *)
Theorem Save_directory_not_made {fs} (h : handler fs) (s s0 s1 : fs)
    (c : Cassette) (serr : option os_error) (e : os_error) :
  elems (Cassette_Interactions c) ≠ [] →
  h _ (os_Stat (filepath_Dir (Cassette_File c))) s = (serr, s0) →
  IsNotExist serr = true →
  h _ (os_MkdirAll (filepath_Dir (Cassette_File c)) 493) s0 = (Some e, s1) →
  run h (Save c) s = (Some (OsError e), s1)
  ∧ trace h (Save c) s
    = [Event (os_Stat (filepath_Dir (Cassette_File c)));
       Event (os_MkdirAll (filepath_Dir (Cassette_File c)) 493)].
Proof.
  intros Hl Hstat Hne Hmk. unfold Save.
  rewrite bool_decide_eq_false_2 by (by destruct (elems _)).
  cbn [run trace]. rewrite Hstat, Hne. cbn [run trace]. by rewrite Hmk.
Qed.

(** X13: when [os.Stat] returns nil or an error that is not a
    does-not-exist error, [Save] does not call [os.MkdirAll]: it drops
    what [os.Stat] returned and goes on to create the file. *)
Theorem Save_directory_not_checked {fs} (h : handler fs) (s s0 : fs)
    (c : Cassette) (serr : option os_error) :
  elems (Cassette_Interactions c) ≠ [] →
  h _ (os_Stat (filepath_Dir (Cassette_File c))) s = (serr, s0) →
  IsNotExist serr = false →
  run h (Save c) s = run h (write_file c) s0
  ∧ trace h (Save c) s
    = Event (os_Stat (filepath_Dir (Cassette_File c)))
      :: Event (os_Create (Cassette_File c))
      :: match h _ (os_Create (Cassette_File c)) s0 with
         | (inl f, _) =>
           [Event (File_Write f (json_text (enc_Cassette c)));
            Event (File_Close f)]
         | (inr _, _) => []
         end.
Proof.
  intros Hl Hstat Hne. unfold Save.
  rewrite bool_decide_eq_false_2 by (by destruct (elems _)).
  cbn [run trace]. rewrite Hstat, Hne. split; [done|].
  unfold write_file, MarshalIndent. cbn [trace].
  destruct (h _ (os_Create (Cassette_File c)) s0) as [[f|cerr] s2]; [|done].
  cbn [trace].
  destruct (h _ (File_Write f (json_text (enc_Cassette c))) s2) as [werr s3].
  cbn [trace]. by destruct (h _ (File_Close f) s3).
Qed.

End save_calls.

(** ** What [Load] reads and returns *)

Section load_results.
Context {go : GoLib}.

(** X14: [Load] makes one call, a read of the file named by the fixture
    name with [".json"] appended; it makes no other call, whatever the
    file holds, and leaves the file system as that read leaves it. *)
Theorem Load_reads_once {fs} (h : handler fs) (s : fs) (name : string) :
  trace h (Load name) s = [Event (ioutil_ReadFile (name +:+ ".json"))]
  ∧ (run h (Load name) s).2 = (h _ (ioutil_ReadFile (name +:+ ".json")) s).2.
Proof.
  unfold Load. cbn [trace run New Cassette_File].
  by destruct (h _ (ioutil_ReadFile (name +:+ ".json")) s) as [[data|err] s'].
Qed.

Lemma Unmarshal_nil (data : bytes) (c : Cassette) (e : option error) :
  Unmarshal data c = (None, e) ↔ json_scan data = Some JNull ∧ e = None.
Proof.
  unfold Unmarshal. destruct (json_scan data) as [j|].
  - destruct j; try (destruct (json.dec_struct _ _ _ _)).
    1: split; [by intros [= <-]|by intros [_ ->]].
    all: split; [done|by intros [[=] _]].
  - split; [done|]. by intros [[=] _].
Qed.

(** X15: [Load] returns a nil cassette together with a nil error exactly
    when the file was read and its document is [null]: [Unmarshal] is
    given the address of the pointer and sets the pointer to nil. *)
Theorem Load_nil_without_error {fs} (h : handler fs) (s : fs) (name : string) :
  (run h (Load name) s).1 = (None, None) ↔
  ∃ data s', h _ (ioutil_ReadFile (name +:+ ".json")) s = (inl data, s')
             ∧ json_scan data = Some JNull.
Proof.
  rewrite run_Load.
  destruct (h _ (ioutil_ReadFile (name +:+ ".json")) s) as [[data|err] s'];
    simpl.
  - rewrite Unmarshal_nil. split.
    + intros [Hnull _]. by exists data, s'.
    + by intros (? & ? & [= <- <-] & ?).
  - split; [done|]. by intros (? & ? & [=] & _).
Qed.

(** X16: an error of [Load] is either the error of the read, and then the
    cassette returned is nil, or an error of the decoder, and then the
    cassette returned is not nil. It is never
    [ErrInteractionNotFound]. *)
Theorem Load_error_kinds {fs} (h : handler fs) (s : fs) (name : string)
    (p : ptr Cassette) (e : error) :
  (run h (Load name) s).1 = (p, Some e) →
  (p = None ∧ ∃ e', e = OsError e'
                    ∧ (h _ (ioutil_ReadFile (name +:+ ".json")) s).1 = inr e')
  ∨ (∃ c e', p = Some c ∧ e = JsonError e').
Proof.
  rewrite run_Load.
  destruct (h _ (ioutil_ReadFile (name +:+ ".json")) s) as [[data|err] s'];
    simpl.
  - unfold Unmarshal. destruct (json_scan data) as [j|].
    + destruct j; try done;
        destruct (json.dec_struct _ _ _ _) as [d [|e0 errs]]; simpl; try done;
        intros [= <- <-]; right; by eexists _, _.
    + intros [= <- <-]. right. by eexists _, _.
  - intros [= <- <-]. left. split; [done|]. by exists err.
Qed.

Lemma dec_members_unknown (ms : list (string * JSON)) (d : json.document) :
  json.dec_members json.Cassette_field (filter Cassette_member ms) d
  = json.dec_members json.Cassette_field ms d.
Proof.
  revert d. induction ms as [|[k v] ms IH]; intros d; [done|].
  rewrite filter_cons. unfold Cassette_member at 1, selects. cbn [fst].
  destruct (decide _) as [Hk|Hk].
  - cbn [json.dec_members].
    destruct (json.Cassette_field (json.foldName k) v d) as [x e1].
    by rewrite IH.
  - cbn [json.dec_members]. unfold json.Cassette_field at 2.
    apply Is_true_false, orb_false_iff in Hk as [Hv Hi].
    rewrite Hv, Hi. rewrite IH.
    by destruct (json.dec_members json.Cassette_field ms d).
Qed.

(** X17: members of the document whose name selects neither [version] nor
    [interactions] have no effect on what is decoded: a document and the
    same document without them give the same cassette and the same
    error. *)
Theorem Unmarshal_skips_unknown_members (data data' : bytes)
    (ms : list (string * JSON)) (c : Cassette) :
  json_scan data = Some (JObject ms) →
  json_scan data' = Some (JObject (filter Cassette_member ms)) →
  Unmarshal data c = Unmarshal data' c.
Proof.
  intros Hd Hd'. unfold Unmarshal. rewrite Hd, Hd'.
  cbn [json.dec_struct]. by rewrite dec_members_unknown.
Qed.

Lemma dec_members_no_version (ms : list (string * JSON)) (d : json.document) :
  forallb (λ m, negb (selects "version" m)) ms = true →
  json.doc_Version (json.dec_members json.Cassette_field ms d).1
  = json.doc_Version d.
Proof.
  revert d. induction ms as [|[k v] ms IH]; intros d; [done|].
  cbn [forallb]. rewrite andb_true_iff, negb_true_iff.
  unfold selects at 1. cbn [fst]. intros [Hk Hms].
  cbn [json.dec_members]. unfold json.Cassette_field at 1. rewrite Hk.
  destruct (bool_decide (json.foldName k = "interactions")).
  - destruct (json.dec_slice _ _ _ _ _ _) as [[x sp] e].
    specialize (IH (json.Build_document (json.doc_Version d) x sp) Hms).
    by destruct (json.dec_members _ _ _).
  - specialize (IH d Hms). by destruct (json.dec_members _ _ _).
Qed.

Lemma dec_members_no_interactions (ms : list (string * JSON)) (d : json.document) :
  forallb (λ m, negb (selects "interactions" m)) ms = true →
  json.doc_Interactions (json.dec_members json.Cassette_field ms d).1
  = json.doc_Interactions d.
Proof.
  revert d. induction ms as [|[k v] ms IH]; intros d; [done|].
  cbn [forallb]. rewrite andb_true_iff, negb_true_iff.
  unfold selects at 1. cbn [fst]. intros [Hk Hms].
  cbn [json.dec_members]. unfold json.Cassette_field at 1. rewrite Hk.
  destruct (bool_decide (json.foldName k = "version")).
  - destruct (json.dec_int _ _) as [x e].
    specialize (IH (json.Build_document x (json.doc_Interactions d)
                      (json.doc_spare d)) Hms).
    by destruct (json.dec_members _ _ _).
  - specialize (IH d Hms). by destruct (json.dec_members _ _ _).
Qed.

(** X18: [Load] of a document that is an object returns a cassette; when
    no member selects [version] its version is the one [New] set, 1, and
    when no member selects [interactions] its sequence is the empty one
    [New] made. *)
Theorem Load_missing_members {fs} (h : handler fs) (s s' : fs) (name : string)
    (data : bytes) (ms : list (string * JSON)) :
  h _ (ioutil_ReadFile (name +:+ ".json")) s = (inl data, s') →
  json_scan data = Some (JObject ms) →
  ∃ c, (run h (Load name) s).1.1 = Some c
       ∧ (forallb (λ m, negb (selects "version" m)) ms = true →
          Cassette_Version c = cassetteFormatV1)
       ∧ (forallb (λ m, negb (selects "interactions" m)) ms = true →
          Cassette_Interactions c = Some []).
Proof.
  intros Hread Hscan. rewrite run_Load, Hread. unfold Unmarshal.
  rewrite Hscan. cbn [json.dec_struct].
  destruct (json.dec_members _ _ _) as [d errs] eqn:Hd.
  eexists. split; [done|]. cbn [Cassette_Version Cassette_Interactions].
  split; intros Hms.
  - apply (dec_members_no_version _ (json.Build_document
             (Cassette_Version (New name)) (Cassette_Interactions (New name)) []))
      in Hms. by rewrite Hd in Hms.
  - apply (dec_members_no_interactions _ (json.Build_document
             (Cassette_Version (New name)) (Cassette_Interactions (New name)) []))
      in Hms. by rewrite Hd in Hms.
Qed.

Lemma dec_Interaction_plain (p : ptr Interaction) :
  plain_Interaction p = true →
  json.dec_Interaction (json.enc_Interaction p) None = (p, []).
Proof.
  intros Hp. rewrite <-(coerce_enc_Interaction p Hp).
  by apply dec_Interaction_enc.
Qed.

(** X19: a version that does not fit an [int] is not stored: for a
    document of the form [Save] writes whose version is such an integer,
    [Load] returns a type error for the number together with the
    cassette, whose version is still 1 and whose sequence is the one of
    the document. *)
Theorem Load_version_out_of_range {fs} (h : handler fs) (s s' : fs)
    (name : string) (data : bytes) (z : Z) (l : list (ptr Interaction)) :
  h _ (ioutil_ReadFile (name +:+ ".json")) s = (inl data, s') →
  json_scan data = Some (saved_document z l) →
  ¬ is_int z →
  forallb plain_Interaction l = true →
  run h (Load name) s
  = ((Some {| Cassette_Name := name;
              Cassette_File := name +:+ ".json";
              Cassette_Version := cassetteFormatV1;
              Cassette_Interactions := Some l;
              Cassette_Matcher := DefaultMatcher |},
      Some (JsonError (UnmarshalTypeError KNumber TInt))), s').
Proof.
  intros Hread Hscan Hz Hl. rewrite run_Load, Hread. unfold Unmarshal.
  rewrite Hscan. unfold saved_document.
  cbn [json.dec_struct json.dec_members].
  change (json.foldName "version") with "version".
  change (json.foldName "interactions") with "interactions".
  unfold json.Cassette_field. pick_field.
  unfold json.dec_int. rewrite bool_decide_eq_false_2 by done.
  cbn [json.type_error json.doc_Version json.doc_Interactions json.doc_spare
       New Cassette_Version Cassette_Interactions].
  pose proof (dec_slice_fresh json.dec_Interaction None TInteractions
                json.enc_Interaction (Some l) (Some [])) as Hdec.
  cbn [from_option] in Hdec. rewrite Hdec; [done|done|].
  rewrite forallb_forall in Hl. apply Forall_forall.
  intros p Hp%list_elem_of_In%Hl. by apply dec_Interaction_plain.
Qed.

Lemma Load_after_Save {fs} (h : handler fs) (s s' : fs) (name : string)
    (c : Cassette) :
  scan_text →
  read_after_write h →
  Cassette_File c = name +:+ ".json" →
  elems (Cassette_Interactions c) ≠ [] →
  plain_Cassette c = true →
  run h (Save c) s = (None, s') →
  run h (Load name) s'
  = ((Some {| Cassette_Name := name;
              Cassette_File := name +:+ ".json";
              Cassette_Version := Cassette_Version c;
              Cassette_Interactions := Cassette_Interactions c;
              Cassette_Matcher := DefaultMatcher |}, None), s').
Proof.
  intros Hcodec Hfs Hfile Hne Hplain Hsave.
  destruct (Cassette_Interactions c) as [l|] eqn:Hl; [|done].
  assert (Hdoc : enc_Cassette c = saved_document (Cassette_Version c) l).
  { unfold enc_Cassette. by rewrite Hl. }
  apply run_Save_written in Hsave as (s0 & f & s1 & s2 & e & Hc & Hw & Hcl);
    [|by rewrite Hl].
  pose proof (Hfs _ _ _ _ _ _ _ _ Hc Hw Hcl) as Hread.
  rewrite Hfile in Hread.
  unfold plain_Cassette in Hplain. rewrite Hl in Hplain.
  apply andb_true_iff in Hplain as [Hv%bool_decide_eq_true Hpl].
  rewrite run_Load, Hread.
  rewrite (Unmarshal_saved_document _ (New name) (Cassette_Version c) l);
    [done| |done|done|done].
  by rewrite Hdoc, Hcodec.
Qed.

(** X20: replay after record. A cassette with at least one interaction and
    valid UTF-8 strings, saved with success and loaded again under the
    same fixture name, answers every lookup as the default matcher
    answers it on the saved sequence, whatever matcher the saved cassette
    had; and saving the loaded cassette is the same sequence of calls
    with the same document as saving the original. *)
Theorem Save_Load_GetInteraction {fs} (h : handler fs) (s s' : fs)
    (name : string) (c : Cassette) :
  scan_text →
  read_after_write h →
  Cassette_File c = name +:+ ".json" →
  elems (Cassette_Interactions c) ≠ [] →
  plain_Cassette c = true →
  run h (Save c) s = (None, s') →
  ∃ c', run h (Load name) s' = ((Some c', None), s')
        ∧ (∀ r, (GetInteraction c' r).1
                = scan DefaultMatcher r (elems (Cassette_Interactions c)))
        ∧ Save c' = Save c.
Proof.
  intros Hcodec Hfs Hfile Hne Hplain Hsave.
  eexists. split; [by apply (Load_after_Save h s s' name c)|]. split; [done|].
  unfold Save, write_file, MarshalIndent, enc_Cassette.
  cbn [Cassette_File Cassette_Version Cassette_Interactions].
  by rewrite Hfile.
Qed.

(** X21: whenever [Load] returns a cassette, with an error or without, the
    cassette carries the fixture name and the path that was read, and
    [Save] of it creates no file but that one. *)
Theorem Load_then_Save_same_file {fs} (h : handler fs) (s : fs) (name : string)
    (c : Cassette) :
  (run h (Load name) s).1.1 = Some c →
  Cassette_Name c = name
  ∧ Cassette_File c = name +:+ ".json"
  ∧ ∀ fs' (h' : handler fs') (s' : fs'),
      Forall (λ p, p = name +:+ ".json") (omap created (trace h' (Save c) s')).
Proof.
  rewrite run_Load.
  destruct (h _ (ioutil_ReadFile (name +:+ ".json")) s) as [[data|err] sr];
    [|done].
  simpl. destruct (Unmarshal data (New name)) as [p e] eqn:Hu. simpl.
  intros ->. apply Unmarshal_untagged in Hu as (Hn & Hf & _).
  simpl in Hn, Hf. split_and!; [done|done|].
  intros fs' h' s'. rewrite <-Hf.
  save_paths h' c s'; repeat constructor.
Qed.

End load_results.

(** ** The statements of this part on closed examples *)

Section closed_examples.
Local Existing Instance mem.lib.


Lemma Save_directory_not_made_witness :
  run cases.denied (Save example.golang_cassette) ()
  = (Some (OsError mem.ENOTDIR), ())
  ∧ trace cases.denied (Save example.golang_cassette) ()
    = [Event (os_Stat (filepath_Dir (Cassette_File example.golang_cassette)));
       Event (os_MkdirAll
                (filepath_Dir (Cassette_File example.golang_cassette)) 493)].
Proof.
  apply (Save_directory_not_made cases.denied () () () example.golang_cassette
           (Some mem.ENOENT) mem.ENOTDIR).
  - discriminate.
  - reflexivity.
  - reflexivity.
  - reflexivity.
Defined.

Lemma Save_directory_not_checked_witness :
  run mem.exec (Save example.binary_cassette) example.fresh
  = run mem.exec (write_file example.binary_cassette) example.fresh
  ∧ trace mem.exec (Save example.binary_cassette) example.fresh
    = Event (os_Stat (filepath_Dir (Cassette_File example.binary_cassette)))
      :: Event (os_Create (Cassette_File example.binary_cassette))
      :: match mem.exec _ (os_Create (Cassette_File example.binary_cassette))
                 example.fresh with
         | (inl f, _) =>
           [Event (File_Write f (json_text (enc_Cassette example.binary_cassette)));
            Event (File_Close f)]
         | (inr _, _) => []
         end.
Proof.
  apply (Save_directory_not_checked mem.exec example.fresh example.fresh
           example.binary_cassette None).
  - discriminate.
  - vm_compute. reflexivity.
  - reflexivity.
Defined.

(** A file system on which [Close] fails: [Save] still returns nil. *)
Lemma Save_unflushed :
  run cases.unflushed (Save example.golang_cassette) () = (None, ()).
Proof. reflexivity. Qed.

Lemma Load_error_kinds_witness :
  ((Some (New "broken") : ptr Cassette) = None
   ∧ ∃ e', JsonError SyntaxError = OsError e'
           ∧ (mem.exec _ (ioutil_ReadFile "broken.json") example.garbled).1
             = inr e')
  ∨ (∃ c e', (Some (New "broken") : ptr Cassette) = Some c
             ∧ JsonError SyntaxError = JsonError e').
Proof.
  apply (Load_error_kinds mem.exec example.garbled "broken").
  reflexivity.
Defined.

Lemma Unmarshal_skips_unknown_members_witness :
  Unmarshal
    (mem.Doc (JObject [("comment", JString "recorded by hand");
                       ("Interactions", JArray [JNull]);
                       ("name", JString "other")]))
    (New "notes")
  = Unmarshal (mem.Doc (JObject [("Interactions", JArray [JNull])]))
      (New "notes").
Proof.
  apply (Unmarshal_skips_unknown_members _ _
           [("comment", JString "recorded by hand");
            ("Interactions", JArray [JNull]);
            ("name", JString "other")]).
  - reflexivity.
  - vm_compute. reflexivity.
Defined.

Lemma Load_missing_members_witness :
  ∃ c, (run mem.exec (Load "notes") cases.annotated).1.1 = Some c
       ∧ (forallb (λ m, negb (selects "version" m))
            [("comment", JString "recorded by hand");
             ("Interactions", JArray [JNull]);
             ("name", JString "other")] = true →
          Cassette_Version c = cassetteFormatV1)
       ∧ (forallb (λ m, negb (selects "interactions" m))
            [("comment", JString "recorded by hand");
             ("Interactions", JArray [JNull]);
             ("name", JString "other")] = true →
          Cassette_Interactions c = Some []).
Proof.
  apply (Load_missing_members mem.exec cases.annotated cases.annotated "notes"
           (mem.Doc (JObject [("comment", JString "recorded by hand");
                              ("Interactions", JArray [JNull]);
                              ("name", JString "other")]))).
  - reflexivity.
  - reflexivity.
Defined.

Lemma Load_version_out_of_range_witness :
  run mem.exec (Load "huge") cases.huge_version
  = ((Some {| Cassette_Name := "huge";
              Cassette_File := "huge" +:+ ".json";
              Cassette_Version := cassetteFormatV1;
              Cassette_Interactions := Some [Some example.golang_org];
              Cassette_Matcher := DefaultMatcher |},
      Some (JsonError (UnmarshalTypeError KNumber TInt))), cases.huge_version).
Proof.
  apply (Load_version_out_of_range mem.exec cases.huge_version
           cases.huge_version "huge"
           (mem.Doc (saved_document (2 ^ 63) [Some example.golang_org]))
           (2 ^ 63) [Some example.golang_org]).
  - reflexivity.
  - reflexivity.
  - unfold is_int. lia.
  - vm_compute. reflexivity.
Defined.

Lemma Save_Load_GetInteraction_witness :
  let s' := (run mem.exec (Save example.golang_cassette) example.fresh).2 in
  ∃ c', run mem.exec (Load "fixtures/golang-org") s' = ((Some c', None), s')
        ∧ (∀ r, (GetInteraction c' r).1
                = scan DefaultMatcher r
                    (elems (Cassette_Interactions example.golang_cassette)))
        ∧ Save c' = Save example.golang_cassette.
Proof.
  apply (Save_Load_GetInteraction mem.exec example.fresh _ "fixtures/golang-org"
           example.golang_cassette).
  - exact mem_scan_text.
  - exact mem_read_after_write.
  - reflexivity.
  - discriminate.
  - vm_compute. reflexivity.
  - vm_compute. reflexivity.
Defined.

Lemma Load_then_Save_same_file_witness :
  Cassette_Name example.loaded_v2 = "v2"
  ∧ Cassette_File example.loaded_v2 = "v2" +:+ ".json"
  ∧ ∀ fs' (h' : handler fs') (s' : fs'),
      Forall (λ p, p = "v2" +:+ ".json")
        (omap created (trace h' (Save example.loaded_v2) s')).
Proof.
  apply (Load_then_Save_same_file mem.exec example.version_2 "v2").
  vm_compute. reflexivity.
Defined.

End closed_examples.

(** ** Goroutines that append and look up together *)

Section list_facts.
Context {A B : Type}.

Lemma sum_list_insert (f : A → nat) (l : list A) (t : nat) (x y : A) :
  l !! t = Some x →
  (sum_list (f <$> <[t := y]> l) + f x = sum_list (f <$> l) + f y)%nat.
Proof.
  revert t. induction l as [|a l IH]; intros [|t] Ht; simplify_eq/=; [lia|].
  specialize (IH t Ht). lia.
Qed.

Lemma sum_list_zero (f : A → nat) (l : list A) :
  sum_list (f <$> l) = 0%nat → Forall (λ x, f x = 0%nat) l.
Proof.
  induction l as [|a l IH]; simpl; [done|].
  intros [Ha Hl]%Nat.eq_add_0. constructor; [done|by apply IH].
Qed.

Lemma omap_insert_same (f : A → option B) (l : list A) (t : nat) (x y : A) :
  l !! t = Some x → f y = f x → omap f (<[t := y]> l) = omap f l.
Proof.
  revert t. induction l as [|a l IH]; intros [|t] Ht Hf; simplify_eq/=.
  - by rewrite Hf.
  - by rewrite (IH t).
Qed.

Lemma omap_insert_new (f : A → option B) (l : list A) (t : nat) (x y : A)
    (b : B) :
  l !! t = Some x → f x = None → f y = Some b →
  omap f (<[t := y]> l) ≡ₚ b :: omap f l.
Proof.
  revert t. induction l as [|a l IH]; intros [|t] Ht Hx Hy; simplify_eq/=.
  - by rewrite Hx, Hy.
  - specialize (IH t Ht Hx Hy).
    destruct (f a); rewrite IH; [apply Permutation_swap|done].
Qed.

End list_facts.

Section goroutine_steps.
Context {go : GoLib}.
Import Goroutines.

Lemma at_a_moment_now (m : Matcher) (n : nat) (current : list (ptr Interaction))
    (r : http_Request) :
  (n ≤ length current)%nat →
  at_a_moment m n current r (scan m r current).
Proof.
  intros Hn. exists (length current). split; [lia|]. by rewrite firstn_all.
Qed.

Lemma at_a_moment_later (m : Matcher) (n : nat) (current : list (ptr Interaction))
    (r : http_Request) (res : outcome (ptr Interaction * option error))
    (i : ptr Interaction) :
  at_a_moment m n current r res → at_a_moment m n (current ++ [i]) r res.
Proof.
  intros (k & Hk & ->). exists k. rewrite length_app. split; [lia|].
  by rewrite take_app_le by lia.
Qed.

Lemma consistent_later (c : Cassette) (current : list (ptr Interaction))
    (i : ptr Interaction) (g : goroutine) :
  reading g = 0%nat → writing g = 0%nat →
  consistent c current g → consistent c (current ++ [i]) g.
Proof.
  destruct g as [r [| |res|res]|j [| | | |]]; simpl; try done.
  intros _ _. apply at_a_moment_later.
Qed.

Lemma step_invariant (c : Cassette) (gs0 gs : list goroutine)
    (s s' : Concurrent.shared) (t : nat) (g g' : goroutine) :
  invariant c gs0 (gs, s) →
  gs !! t = Some g →
  step g s = Some (g', s') →
  invariant c gs0 (<[t := g']> gs, s').
Proof.
  intros [Hr Hw Hx (l' & Hcur & Hperm) (Hn & Hf & Hv & Hm) Hc Ha] Ht Hstep.
  simpl in *.
  assert (Hg : consistent c (elems (Cassette_Interactions (Concurrent.cassette s))) g)
    by (eapply Forall_lookup_1; eauto).
  assert (Hlen : (length (elems (Cassette_Interactions c))
                  ≤ length (elems (Cassette_Interactions (Concurrent.cassette s))))%nat)
    by (rewrite Hcur, length_app; lia).
  pose proof (sum_list_insert reading gs t g g' Ht) as Sr.
  pose proof (sum_list_insert writing gs t g g' Ht) as Sw.
  destruct g as [r p|i p]; simpl in Hstep.
  - destruct p as [|[|[j|] rest]|res|res]; simpl in Hstep.
    + destruct (Concurrent.writer (Concurrent.mu s)) eqn:Hwr; [done|].
      injection Hstep as <- <-. simpl in *.
      split; simpl.
      * lia.
      * lia.
      * done.
      * exists l'. split; [done|]. by rewrite (omap_insert_same _ _ _ _ _ Ht).
      * done.
      * by apply Forall_insert.
      * by rewrite (omap_insert_same _ _ _ _ _ Ht).
    + injection Hstep as <- <-. simpl in *. split; simpl.
      * lia.
      * lia.
      * done.
      * exists l'. split; [done|]. by rewrite (omap_insert_same _ _ _ _ _ Ht).
      * done.
      * apply Forall_insert; [done|]. simpl. rewrite Hg.
        by apply at_a_moment_now.
      * by rewrite (omap_insert_same _ _ _ _ _ Ht).
    + rewrite Hm in Hstep.
      destruct (Cassette_Matcher c r (Interaction_Request j)) eqn:Hacc;
        injection Hstep as <- <-; simpl in *; rewrite Hacc in Hg;
        (split; simpl;
         [ lia | lia | done
         | exists l'; split; [done|]; by rewrite (omap_insert_same _ _ _ _ _ Ht)
         | done
         | apply Forall_insert; [done|]; simpl
         | by rewrite (omap_insert_same _ _ _ _ _ Ht) ]).
      * rewrite Hg. by apply at_a_moment_now.
      * done.
    + injection Hstep as <- <-. simpl in *. split; simpl.
      * lia.
      * lia.
      * done.
      * exists l'. split; [done|]. by rewrite (omap_insert_same _ _ _ _ _ Ht).
      * done.
      * apply Forall_insert; [done|]. simpl. rewrite Hg.
        by apply at_a_moment_now.
      * by rewrite (omap_insert_same _ _ _ _ _ Ht).
    + injection Hstep as <- <-. simpl in *. split; simpl.
      * lia.
      * lia.
      * intros Hwr. specialize (Hx Hwr). lia.
      * exists l'. split; [done|]. by rewrite (omap_insert_same _ _ _ _ _ Ht).
      * done.
      * by apply Forall_insert.
      * by rewrite (omap_insert_same _ _ _ _ _ Ht).
    + done.
  - destruct p as [| |new| |]; simpl in Hstep.
    + destruct (Concurrent.writer (Concurrent.mu s)) eqn:Hwr; [done|].
      destruct (Concurrent.readers (Concurrent.mu s)) as [|n] eqn:Hrd; [|done].
      injection Hstep as <- <-. simpl in *. split; simpl.
      * lia.
      * lia.
      * done.
      * exists l'. split; [done|]. by rewrite (omap_insert_same _ _ _ _ _ Ht).
      * done.
      * by apply Forall_insert.
      * by rewrite (omap_insert_same _ _ _ _ _ Ht).
    + injection Hstep as <- <-. simpl in *. split; simpl.
      * lia.
      * lia.
      * done.
      * exists l'. split; [done|]. by rewrite (omap_insert_same _ _ _ _ _ Ht).
      * done.
      * by apply Forall_insert.
      * by rewrite (omap_insert_same _ _ _ _ _ Ht).
    + injection Hstep as <- <-. simpl in *. subst new.
      assert (Hwr : Concurrent.writer (Concurrent.mu s) = true).
      { destruct (Concurrent.writer (Concurrent.mu s)); [done|].
        simpl in Hw. pose proof (sum_list_insert writing gs t _ (Append i Returned) Ht).
        simpl in *. lia. }
      split; simpl.
      * lia.
      * lia.
      * done.
      * exists (l' ++ [i]). split; [by rewrite Hcur, app_assoc|].
        rewrite (omap_insert_new stored gs t _ _ i Ht) by done.
        rewrite Hperm. symmetry. apply Permutation_cons_append.
      * done.
      * rewrite <-(list_insert_insert_eq gs t (Append i AtUnlock) (Append i Returned)).
        apply Forall_insert; [|done].
        pose proof (sum_list_insert writing gs t _ (Append i Returned) Ht) as Sw0.
        pose proof (sum_list_insert reading gs t _ (Append i Returned) Ht) as Sr0.
        simpl in Sw0, Sr0. rewrite Hwr in Hw. simpl in Hw.
        specialize (Hx Hwr).
        assert (Hw0 : sum_list (writing <$> <[t:=Append i Returned]> gs) = 0%nat) by lia.
        assert (Hr0 : sum_list (reading <$> <[t:=Append i Returned]> gs) = 0%nat) by lia.
        apply sum_list_zero in Hw0, Hr0.
        assert (Hc0 : Forall (consistent c
                  (elems (Cassette_Interactions (Concurrent.cassette s))))
                  (<[t:=Append i Returned]> gs)) by (by apply Forall_insert).
        rewrite Forall_forall in Hw0, Hr0, Hc0 |- *.
        intros g Hin. apply consistent_later; auto.
      * by rewrite (omap_insert_same _ _ _ _ _ Ht).
    + injection Hstep as <- <-. simpl in *.
      assert (Hwr : Concurrent.writer (Concurrent.mu s) = true).
      { destruct (Concurrent.writer (Concurrent.mu s)); [done|].
        simpl in Hw. lia. }
      rewrite Hwr in Hw. simpl in Hw. split; simpl.
      * lia.
      * lia.
      * done.
      * exists l'. split; [done|]. by rewrite (omap_insert_same _ _ _ _ _ Ht).
      * done.
      * by apply Forall_insert.
      * by rewrite (omap_insert_same _ _ _ _ _ Ht).
    + done.
Qed.

End goroutine_steps.

Section goroutine_runs.
Context {go : GoLib}.
Import Goroutines.

Lemma sched_step_invariant (c : Cassette) (gs0 : list goroutine) (t : nat)
    (σ : system) :
  invariant c gs0 σ → invariant c gs0 (sched_step t σ).
Proof.
  intros Hinv. unfold sched_step. destruct σ as [gs s]. simpl.
  destruct (gs !! t) as [g|] eqn:Ht; [|done].
  destruct (step g s) as [[g' s']|] eqn:Hstep; [|done].
  by eapply step_invariant.
Qed.

Lemma exec_invariant (c : Cassette) (gs0 : list goroutine) (schedule : list nat)
    (σ : system) :
  invariant c gs0 σ → invariant c gs0 (exec schedule σ).
Proof.
  revert σ. induction schedule as [|t schedule IH]; intros σ Hinv; [done|].
  simpl. by apply IH, sched_step_invariant.
Qed.

Lemma spawn_idle (vs : list invocation) :
  sum_list (reading <$> (spawn <$> vs)) = 0%nat
  ∧ sum_list (writing <$> (spawn <$> vs)) = 0%nat
  ∧ omap stored (spawn <$> vs) = []
  ∧ omap adds (spawn <$> vs) = omap added vs.
Proof.
  induction vs as [|[r|i] vs (Hr & Hw & Hs & Ha)]; [done| |];
    cbn [fmap list_fmap spawn sum_list reading writing omap list_omap stored
         adds added];
    change (list_fmap ?X ?Y ?f ?l) with (f <$> l);
    change (list_omap ?f ?l) with (omap f l);
    by rewrite Hr, Hw, Hs, Ha.
Qed.

Lemma start_invariant (vs : list invocation) (c : Cassette) :
  invariant c (spawn <$> vs) (start vs c).
Proof.
  destruct (spawn_idle vs) as (Hr & Hw & Hs & Ha).
  split; simpl; try done.
  - exists []. by rewrite app_nil_r, Hs.
  - apply Forall_fmap, Forall_true. by intros [r|i].
Qed.

Lemma returned_stored (gs : list goroutine) :
  Forall returned gs →
  omap stored gs = omap adds gs
  ∧ sum_list (reading <$> gs) = 0%nat
  ∧ sum_list (writing <$> gs) = 0%nat.
Proof.
  induction 1 as [|g gs Hg _ (Hs & Hr & Hw)]; [done|].
  destruct g as [r [| | |res]|i [| | | |]]; try done;
    cbn [fmap list_fmap sum_list reading writing omap list_omap stored adds];
    change (list_fmap ?X ?Y ?f ?l) with (f <$> l);
    change (list_omap ?f ?l) with (omap f l);
    by rewrite Hr, Hw, Hs.
Qed.

(** X22: goroutines that call [AddInteraction] and [GetInteraction] on one
    cassette, in any number and under any schedule: the sequence is at
    every moment the one they started from followed by the interactions
    assigned so far, each once and in some order; when all have returned
    it is the sequence they started from followed by every interaction
    added, none lost and none twice. *)
Theorem AddInteraction_none_lost (vs : list invocation) (c : Cassette)
    (schedule : list nat) :
  let σ := exec schedule (start vs c) in
  let current := elems (Cassette_Interactions (Concurrent.cassette σ.2)) in
  ∃ l', current = elems (Cassette_Interactions c) ++ l'
        ∧ l' ≡ₚ omap stored σ.1
        ∧ (Forall returned σ.1 →
           l' ≡ₚ omap added vs
           ∧ length current
             = (length (elems (Cassette_Interactions c))
                + length (omap added vs))%nat).
Proof.
  intros σ current.
  destruct (exec_invariant c _ schedule _ (start_invariant vs c))
    as [_ _ _ (l' & Hcur & Hperm) _ _ Ha].
  fold σ in Hcur, Hperm, Ha. exists l'. split_and!; [done|done|].
  intros Hret. apply returned_stored in Hret as (Hs & _ & _).
  destruct (spawn_idle vs) as (_ & _ & _ & Hadded).
  assert (Hl' : l' ≡ₚ omap added vs) by (by rewrite Hperm, Hs, Ha, Hadded).
  split; [done|]. unfold current. by rewrite Hcur, length_app, Hl'.
Qed.


(** X24: under any schedule of such goroutines, at most one goroutine is
    between [Lock] and [Unlock], and then none is between [RLock] and
    [RUnlock]; the mutex counts exactly the goroutines that hold it, and
    is free once all have returned; name, file, version and matcher of the
    cassette are never changed. *)
Theorem RWMutex_excludes (vs : list invocation) (c : Cassette)
    (schedule : list nat) :
  let σ := exec schedule (start vs c) in
  (sum_list (writing <$> σ.1) ≤ 1)%nat
  ∧ (sum_list (writing <$> σ.1) = 1%nat → sum_list (reading <$> σ.1) = 0%nat)
  ∧ Concurrent.readers (Concurrent.mu σ.2) = sum_list (reading <$> σ.1)
  ∧ Nat.b2n (Concurrent.writer (Concurrent.mu σ.2)) = sum_list (writing <$> σ.1)
  ∧ (Forall returned σ.1 →
     Concurrent.mu σ.2
     = {| Concurrent.readers := 0; Concurrent.writer := false |})
  ∧ Cassette_Name (Concurrent.cassette σ.2) = Cassette_Name c
  ∧ Cassette_File (Concurrent.cassette σ.2) = Cassette_File c
  ∧ Cassette_Version (Concurrent.cassette σ.2) = Cassette_Version c
  ∧ Cassette_Matcher (Concurrent.cassette σ.2) = Cassette_Matcher c.
Proof.
  intros σ.
  destruct (exec_invariant c _ schedule _ (start_invariant vs c))
    as [Hr Hw Hx _ (Hn & Hf & Hv & Hm) _ _].
  fold σ in Hr, Hw, Hx, Hn, Hf, Hv, Hm.
  destruct (Concurrent.mu σ.2) as [rd wr] eqn:Hmu. simpl in *.
  split_and!; try done.
  - rewrite <-Hw. destruct wr; simpl; lia.
  - intros H1. rewrite <-Hw in H1. destruct wr; [|done].
    rewrite <-Hr. by apply Hx.
  - intros Hret. apply returned_stored in Hret as (_ & Hr0 & Hw0).
    rewrite Hr0 in Hr. rewrite Hw0 in Hw. destruct wr; [done|]. by subst rd.
Qed.

End goroutine_runs.

(** A run of three goroutines to the end: two appends and, between them,
    a lookup that finds the interaction the first one added. *)
Lemma goroutines_run_to_the_end :
  let σ := Goroutines.exec (go := mem.lib)
             [0; 0; 1; 2; 0; 0; 1; 1; 2; 1; 2; 2; 2; 2]%nat
             (Goroutines.start
                [Goroutines.Add (Some example.golang_org);
                 Goroutines.Get example.golang_request;
                 Goroutines.Add (Some cases.golang_org_again)]
                (New "fixtures/golang-org")) in
  σ.1 = [Goroutines.Append (Some example.golang_org) Goroutines.Returned;
         Goroutines.Lookup example.golang_request
           (Concurrent.Done (Return (Some example.golang_org, None)));
         Goroutines.Append (Some cases.golang_org_again) Goroutines.Returned]
  ∧ Cassette_Interactions (Concurrent.cassette σ.2)
    = Some [Some example.golang_org; Some cases.golang_org_again].
Proof. vm_compute. done. Qed.
